(** * Loan ledger of the money-lending backend

    A shallow embedding of [models/Transaction.js] (the schema, its
    defaults, its validators and the [pre('save')] hook) and of the
    handlers of [routes/transactions.js], followed by the properties of
    the ledger that the specification states.

    Modelling conventions.
    - A JavaScript [Number] that holds an amount or a rate is an integer
      of [Z] (an amount in the smallest currency unit); rounding of
      binary floating point is outside the model.
    - A [Date] is its timestamp, a [Z]; the clock reading [new Date()] of
      a request is the argument [now] of its handler.
    - An [ObjectId] is an [N].  The id given to a new document is the
      argument [oid] of the creating handler.
    - The collection of transactions is a finite map from [_id] to the
      stored document; the collection of users is a list of accounts.
    - [req.user], set by the [protect] middleware, is an account.
    - A string is the sequence of the bytes of its UTF-8 encoding: two
      strings are equal when their bytes are, and the empty string has no
      byte. *)

From Stdlib Require Import ZArith.
From stdpp Require Import gmap strings list sorting.

Open Scope Z_scope.

Abbreviation ObjectId := N.

(** ** Schemas *)

(** [enum: ['pending', 'active', 'completed', 'overdue', 'defaulted']] *)
Inductive Status := pending | active | completed | overdue | defaulted.

Global Instance Status_eq_dec : EqDecision Status.
Proof. solve_decision. Defined.

Definition parse_status (s : string) : option Status :=
  if decide (s = "pending")%string then Some pending
  else if decide (s = "active")%string then Some active
  else if decide (s = "completed")%string then Some completed
  else if decide (s = "overdue")%string then Some overdue
  else if decide (s = "defaulted")%string then Some defaulted
  else None.

(** An element of [payments]. *)
Module Payment.
Record t := mk { amount : Z; date : Z; notes : option string }.

Global Instance eq_dec : EqDecision t.
Proof. solve_decision. Defined.
End Payment.

(** A document of the [Transaction] model, without its [_id] (the key
    under which the collection holds it). *)
Record Transaction := mkTransaction {
  lender : ObjectId;
  borrower : string;
  borrowerId : option ObjectId;
  amount : Z;
  interestRate : Z;
  startDate : Z;
  dueDate : Z;
  status : Status;
  description : option string;
  payments : list Payment.t;
  totalPaid : Z;
  remainingAmount : Z;
  createdAt : Z;
  updatedAt : Z
}.

Global Instance Transaction_eq_dec : EqDecision Transaction.
Proof. solve_decision. Defined.

(** The two fields of an account that the ledger reads. *)
Record User := mkUser { _id : ObjectId; username : string }.

Global Instance User_eq_dec : EqDecision User.
Proof. solve_decision. Defined.

(** The paths of the schema, for the change tracking of a document. *)
Inductive Path :=
  | p_lender | p_borrower | p_borrowerId | p_amount | p_interestRate
  | p_startDate | p_dueDate | p_status | p_description | p_payments
  | p_totalPaid | p_remainingAmount.

Global Instance Path_eq_dec : EqDecision Path.
Proof. solve_decision. Defined.

(** ** Documents in memory

    A document in memory is the current value of its fields together
    with what the object-document mapper tracks about it: whether it is
    new, the paths assigned a value different from the one they held, and
    the paths assigned a value that their type or their [enum] refuses. *)
Record Document := mkDocument {
  fields : Transaction;
  isNew : bool;
  modifiedPaths : list Path;
  invalidPaths : list Path
}.

Definition isModified (p : Path) (d : Document) : bool :=
  bool_decide (p ∈ modifiedPaths d).

(** A document read from the collection ([findById]). *)
Definition hydrate (t : Transaction) : Document :=
  mkDocument t false [] [].

Section Setters.
Context {A : Type} `{EqDecision A}.

(** [doc.path = v]: the path is marked modified when [v] differs from
    the value it holds. *)
Definition assign (p : Path) (get : Transaction → A)
    (set : A → Transaction → Transaction) (v : A) (d : Document) : Document :=
  mkDocument (set v (fields d)) (isNew d)
    (if decide (get (fields d) = v) then modifiedPaths d
     else p :: modifiedPaths d)
    (invalidPaths d).
End Setters.

(** [doc.path = v] for a [v] that the path refuses (an [Invalid Date],
    a string outside the [enum]): the failure is recorded and reported by
    the validation of [save]. *)
Definition assign_invalid (p : Path) (d : Document) : Document :=
  mkDocument (fields d) (isNew d) (modifiedPaths d) (p :: invalidPaths d).

Definition with_borrower (v : string) (t : Transaction) : Transaction :=
  mkTransaction (lender t) v (borrowerId t) (amount t) (interestRate t)
    (startDate t) (dueDate t) (status t) (description t) (payments t)
    (totalPaid t) (remainingAmount t) (createdAt t) (updatedAt t).
Definition with_borrowerId (v : option ObjectId) (t : Transaction) : Transaction :=
  mkTransaction (lender t) (borrower t) v (amount t) (interestRate t)
    (startDate t) (dueDate t) (status t) (description t) (payments t)
    (totalPaid t) (remainingAmount t) (createdAt t) (updatedAt t).
Definition with_amount (v : Z) (t : Transaction) : Transaction :=
  mkTransaction (lender t) (borrower t) (borrowerId t) v (interestRate t)
    (startDate t) (dueDate t) (status t) (description t) (payments t)
    (totalPaid t) (remainingAmount t) (createdAt t) (updatedAt t).
Definition with_interestRate (v : Z) (t : Transaction) : Transaction :=
  mkTransaction (lender t) (borrower t) (borrowerId t) (amount t) v
    (startDate t) (dueDate t) (status t) (description t) (payments t)
    (totalPaid t) (remainingAmount t) (createdAt t) (updatedAt t).
Definition with_startDate (v : Z) (t : Transaction) : Transaction :=
  mkTransaction (lender t) (borrower t) (borrowerId t) (amount t)
    (interestRate t) v (dueDate t) (status t) (description t) (payments t)
    (totalPaid t) (remainingAmount t) (createdAt t) (updatedAt t).
Definition with_dueDate (v : Z) (t : Transaction) : Transaction :=
  mkTransaction (lender t) (borrower t) (borrowerId t) (amount t)
    (interestRate t) (startDate t) v (status t) (description t) (payments t)
    (totalPaid t) (remainingAmount t) (createdAt t) (updatedAt t).
Definition with_status (v : Status) (t : Transaction) : Transaction :=
  mkTransaction (lender t) (borrower t) (borrowerId t) (amount t)
    (interestRate t) (startDate t) (dueDate t) v (description t) (payments t)
    (totalPaid t) (remainingAmount t) (createdAt t) (updatedAt t).
Definition with_description (v : option string) (t : Transaction) : Transaction :=
  mkTransaction (lender t) (borrower t) (borrowerId t) (amount t)
    (interestRate t) (startDate t) (dueDate t) (status t) v (payments t)
    (totalPaid t) (remainingAmount t) (createdAt t) (updatedAt t).
Definition with_payments (v : list Payment.t) (t : Transaction) : Transaction :=
  mkTransaction (lender t) (borrower t) (borrowerId t) (amount t)
    (interestRate t) (startDate t) (dueDate t) (status t) (description t) v
    (totalPaid t) (remainingAmount t) (createdAt t) (updatedAt t).
Definition with_totalPaid (v : Z) (t : Transaction) : Transaction :=
  mkTransaction (lender t) (borrower t) (borrowerId t) (amount t)
    (interestRate t) (startDate t) (dueDate t) (status t) (description t)
    (payments t) v (remainingAmount t) (createdAt t) (updatedAt t).
Definition with_remainingAmount (v : Z) (t : Transaction) : Transaction :=
  mkTransaction (lender t) (borrower t) (borrowerId t) (amount t)
    (interestRate t) (startDate t) (dueDate t) (status t) (description t)
    (payments t) (totalPaid t) v (createdAt t) (updatedAt t).
Definition with_createdAt (v : Z) (t : Transaction) : Transaction :=
  mkTransaction (lender t) (borrower t) (borrowerId t) (amount t)
    (interestRate t) (startDate t) (dueDate t) (status t) (description t)
    (payments t) (totalPaid t) (remainingAmount t) v (updatedAt t).
Definition with_updatedAt (v : Z) (t : Transaction) : Transaction :=
  mkTransaction (lender t) (borrower t) (borrowerId t) (amount t)
    (interestRate t) (startDate t) (dueDate t) (status t) (description t)
    (payments t) (totalPaid t) (remainingAmount t) (createdAt t) v.

(** [transaction.payments.push(p)]: a push always marks the array
    modified. *)
Definition push_payment (p : Payment.t) (d : Document) : Document :=
  mkDocument (with_payments (payments (fields d) ++ [p]) (fields d)) (isNew d)
    (p_payments :: modifiedPaths d) (invalidPaths d).

(** ** The model's hooks *)

(** The validators of the schema: [amount] has [min: 1] and
    [interestRate] has [min: 0]; the [required] and [enum] validators
    hold of every value of the record type. *)
Definition validators (t : Transaction) : bool :=
  bool_decide (1 ≤ amount t) && bool_decide (0 ≤ interestRate t).

(** Validation, the first hook of [save]: no path was refused a value and
    the validators hold. *)
Definition validate (d : Document) : bool :=
  bool_decide (invalidPaths d = []) && validators (fields d).

(** [payments.reduce((sum, payment) => sum + payment.amount, 0)] *)
Definition sum_payments (ps : list Payment.t) : Z :=
  foldl (λ sum payment, sum + Payment.amount payment) 0 ps.

(** [TransactionSchema.pre('save', ...)] *)
Definition pre_save (now : Z) (d : Document) : Transaction :=
  let this := fields d in
  if isModified p_payments d then
    let this := with_totalPaid (sum_payments (payments this)) this in
    let this := with_remainingAmount (amount this - totalPaid this) this in
    if decide (remainingAmount this ≤ 0) then with_status completed this
    else if decide (dueDate this < now ∧ status this ≠ completed)
         then with_status overdue this
    else this
  else this.

(** [{ timestamps: true }]: a new document gets both stamps, a modified
    one a new [updatedAt]. *)
Definition timestamps (now : Z) (d : Document) (t : Transaction) : Transaction :=
  if isNew d then with_updatedAt now (with_createdAt now t)
  else match modifiedPaths d with
       | [] => t
       | _ :: _ => with_updatedAt now t
       end.

(** [doc.save()]: validation, then the hooks, then the write.  [None]
    is a rejected promise (a validation error, or a duplicate key for a
    new document); the collection is then as it was. *)
Definition save (now : Z) (id : ObjectId) (d : Document)
    (db : gmap N Transaction) : option (Transaction * gmap N Transaction) :=
  if validate d then
    let t := timestamps now d (pre_save now d) in
    if isNew d && bool_decide (is_Some (db !! id)) then None
    else Some (t, <[id := t]> db)
  else None.

(** ** Requests *)

(** A date of a request body: absent (or empty), present but not
    parsable by [new Date], or present with its timestamp. *)
Inductive DateInput := date_absent | date_invalid | date_valid (t : Z).

(** [new Date(x)] for a present [x]; [None] is [Invalid Date]. *)
Definition new_Date (x : DateInput) : option Z :=
  match x with date_valid t => Some t | _ => None end.

(** A numeric field of a body that the route validates with
    [isNumeric] is [None] when it is absent or not numeric; a string
    field is [None] when it is absent. *)
Module CreateBody.
Record t := mk {
  borrower : option string; amount : option Z; interestRate : option Z;
  dueDate : DateInput; startDate : DateInput; description : option string }.
End CreateBody.

(** A field of the body of an update that is assigned to a [Number]
    path.  The route does not validate it: it is absent (or [null],
    [false], the empty string), or a JSON number, or any other value,
    which is truthy and which the cast of the path either turns into a
    number (the string of the digit 0 into 0) or refuses (a string that
    is no number). *)
Inductive NumInput :=
  | num_absent
  | num_number (z : Z)
  | num_other (cast : option Z).

Module UpdateBody.
Record t := mk {
  amount : NumInput; interestRate : NumInput; dueDate : DateInput;
  startDate : DateInput; status : option string;
  description : option string; borrower : option string }.
End UpdateBody.

Module PaymentBody.
Record t := mk { amount : option Z; date : DateInput; notes : option string }.
End PaymentBody.

(** Truthiness of a body field, as [if (x)] tests it.  For a field
    assigned to a [Number] path the result is [None] when the field is
    falsy, and otherwise what the cast of the path makes of it: the
    number, or [None] when the cast fails. *)
Definition truthy_num (x : NumInput) : option (option Z) :=
  match x with
  | num_absent => None
  | num_number z => if decide (z = 0) then None else Some (Some z)
  | num_other cast => Some cast
  end.
Definition truthy_str (x : option string) : option string :=
  match x with Some s => if decide (s = "")%string then None else Some s | None => None end.

(** [body(f).not().isEmpty()] *)
Definition not_empty_str (x : option string) : bool := bool_decide (is_Some (truthy_str x)).
Definition not_empty_date (x : DateInput) : bool :=
  match x with date_absent => false | _ => true end.
(** [body(f).isNumeric()] *)
Definition isNumeric (x : option Z) : bool := bool_decide (is_Some x).

Inductive Role := role_lender | role_borrower.

Global Instance Role_eq_dec : EqDecision Role.
Proof. solve_decision. Defined.

(** [{ ...t.toObject(), role }] *)
Record Entry := mkEntry { entry_id : ObjectId; entry_doc : Transaction; role : Role }.

Global Instance Entry_eq_dec : EqDecision Entry.
Proof. solve_decision. Defined.

(** What a handler answers: the status code and the payload the
    properties below read. *)
Inductive Response :=
  | Created (id : ObjectId) (data : Transaction) (borrowerExists : bool) (* 201 *)
  | OkList (data : list Entry)                                         (* 200 *)
  | OkRecord (data : Transaction) (r : Role)                           (* 200 *)
  | OkData (data : Transaction)                                        (* 200 *)
  | OkRemoved                                                          (* 200 *)
  | BadRequest                                                         (* 400 *)
  | Unauthorized                                                       (* 401 *)
  | NotFound                                                           (* 404 *)
  | ServerError.                                                       (* 500 *)

(** ** Trimming

    The white space and the line terminators that
    [String.prototype.trim] removes, by code point: tab, line feed,
    vertical tab, form feed, carriage return, space, no-break space, the
    other space separators, the line and paragraph separators and the
    byte order mark. *)
Definition white_space_chars : list N :=
  [9; 10; 11; 12; 13; 32; 160; 5760; 8192; 8193; 8194; 8195; 8196; 8197;
   8198; 8199; 8200; 8201; 8202; 8232; 8233; 8239; 8287; 12288; 65279]%N.

(** The UTF-8 encoding of a code point below 65536. *)
Definition utf8 (cp : N) : list N :=
  if (cp <? 128)%N then [cp]
  else if (cp <? 2048)%N then [192 + cp / 64; 128 + cp mod 64]%N
  else [224 + cp / 4096; 128 + (cp / 64) mod 64; 128 + cp mod 64]%N.

Definition white_space : list (list N) := utf8 <$> white_space_chars.

Definition is_white (bytes : list Ascii.ascii) : bool :=
  bool_decide ((Ascii.N_of_ascii <$> bytes) ∈ white_space).

(** The string without the white space at its front; with [back] the
    bytes are read in reverse, for the white space at the end. *)
Fixpoint strip (back : bool) (s : string) : string :=
  match s with
  | String a s1 =>
      if is_white [a] then strip back s1
      else
        match s1 with
        | String b s2 =>
            if is_white (if back then [b; a] else [a; b]) then strip back s2
            else
              match s2 with
              | String c s3 =>
                  if is_white (if back then [c; b; a] else [a; b; c])
                  then strip back s3
                  else s
              | EmptyString => s
              end
        | EmptyString => s
        end
  | EmptyString => EmptyString
  end.

(** [s.trim()] *)
Definition trim (s : string) : string :=
  String.rev (strip true (String.rev (strip false s))).

(** ** Queries *)

(** [User.findOne({ username: name })]: the [username] path of the
    [User] schema has [trim: true], and the setters of a path are applied
    to the value of a query on it, so that the account found is one
    whose username is the trimmed [name]. *)
Definition findOne (users : list User) (name : string) : option User :=
  head (filter (λ u, username u = trim name) users).

(** [.sort({ createdAt: -1 })] and
    [.sort((a, b) => new Date(b.createdAt) - new Date(a.createdAt))] *)
Definition newest_first {A} (key : A → Z) : relation A :=
  λ a b, key b ≤ key a.

Global Instance newest_first_dec {A} (key : A → Z) : RelDecision (newest_first key).
Proof. intros a b. unfold newest_first. apply _. Defined.

(** The sort is stable, as [Array.prototype.sort] is: an element goes
    in front of the elements it does not have to follow. *)
Fixpoint insert_desc {A} (key : A → Z) (x : A) (l : list A) : list A :=
  match l with
  | [] => [x]
  | y :: l' =>
      if decide (newest_first key x y) then x :: l
      else y :: insert_desc key x l'
  end.

Definition sort_desc {A} (key : A → Z) (l : list A) : list A :=
  foldr (insert_desc key) [] l.

(** [Transaction.find(q)]: the stored documents that [q] selects, each
    with its [_id]. *)
Definition find (q : ObjectId * Transaction → Prop) `{!∀ x, Decision (q x)}
    (db : gmap N Transaction) : list (ObjectId * Transaction) :=
  filter q (map_to_list db).

(** ** The model's constructor *)

(** [new Transaction({ lender, borrower, amount, interestRate, startDate,
    dueDate, description })]: the given paths are set, the others take
    their defaults ([remainingAmount] defaults to [this.amount]); the
    stamps are written by [save]. *)
Definition new_Transaction (lender_ : ObjectId) (borrower_ : string)
    (amount_ interestRate_ : Z) (startDate_ dueDate_ : option Z)
    (description_ : option string) : Document :=
  mkDocument
    (mkTransaction lender_ borrower_ None amount_ interestRate_
       (default 0 startDate_) (default 0 dueDate_) active description_ []
       0 amount_ 0 0)
    true
    ([p_lender; p_borrower; p_amount; p_interestRate; p_startDate; p_dueDate]
     ++ (if description_ is None then [] else [p_description]))
    ((if startDate_ is None then [p_startDate] else []) ++
     (if dueDate_ is None then [p_dueDate] else [])).

(** ** Handlers of [routes/transactions.js]

    A handler takes the two collections, the clock, the authenticated
    user and the request, and returns its answer and the collection of
    transactions afterwards. *)

(** [isLender] and [isBorrower], as the read and the payment handlers
    compute them. *)
Definition isLender (transaction : Transaction) (user : User) : bool :=
  bool_decide (lender transaction = _id user).

Definition isBorrower (transaction : Transaction) (user : User) : bool :=
  match borrowerId transaction with
  | Some b => bool_decide (b = _id user)
  | None => false
  end || bool_decide (borrower transaction = username user).

(** [POST /api/transactions] *)
Definition create_transaction (users : list User) (db : gmap N Transaction)
    (now : Z) (oid : ObjectId) (user : User) (body : CreateBody.t)
    : Response * gmap N Transaction :=
  if negb (not_empty_str (CreateBody.borrower body)
           && isNumeric (CreateBody.amount body)
           && isNumeric (CreateBody.interestRate body)
           && not_empty_date (CreateBody.dueDate body)
           && not_empty_date (CreateBody.startDate body))
  then (BadRequest, db)
  else
    match CreateBody.borrower body, CreateBody.amount body,
          CreateBody.interestRate body with
    | Some borrower_, Some amount_, Some interestRate_ =>
        let borrowerUser := findOne users borrower_ in
        let newTransaction :=
          new_Transaction (_id user) borrower_ amount_ interestRate_
            (new_Date (CreateBody.startDate body))
            (new_Date (CreateBody.dueDate body))
            (CreateBody.description body) in
        let newTransaction :=
          match borrowerUser with
          | Some u => assign p_borrowerId borrowerId with_borrowerId
                        (Some (_id u)) newTransaction
          | None => newTransaction
          end in
        match save now oid newTransaction db with
        | Some (transaction, db') =>
            (Created oid transaction (bool_decide (is_Some borrowerUser)), db')
        | None => (ServerError, db)
        end
    | _, _, _ => (BadRequest, db)
    end.

Definition tag (r : Role) (t : ObjectId * Transaction) : Entry :=
  mkEntry t.1 t.2 r.

(** [GET /api/transactions] *)
Definition list_transactions (db : gmap N Transaction) (user : User)
    : Response * gmap N Transaction :=
  let lenderTransactions :=
    sort_desc (createdAt ∘ snd) (find (λ t, lender t.2 = _id user) db) in
  let borrowerTransactions :=
    sort_desc (createdAt ∘ snd) (find (λ t, borrowerId t.2 = Some (_id user)) db) in
  let borrowerByUsernameTransactions :=
    sort_desc (createdAt ∘ snd)
      (find (λ t, borrower t.2 = username user
                  ∧ borrowerId t.2 ≠ Some (_id user)) db) in
  let allTransactions :=
    (tag role_lender <$> lenderTransactions) ++
    (tag role_borrower <$> borrowerTransactions) ++
    (tag role_borrower <$> borrowerByUsernameTransactions) in
  (OkList (sort_desc (createdAt ∘ entry_doc) allTransactions), db).

(** [GET /api/transactions/:id] *)
Definition get_transaction (db : gmap N Transaction) (user : User)
    (id : ObjectId) : Response * gmap N Transaction :=
  match db !! id with
  | None => (NotFound, db)
  | Some transaction =>
      if negb (isLender transaction user) && negb (isBorrower transaction user)
      then (Unauthorized, db)
      else (OkRecord transaction
              (if isLender transaction user then role_lender else role_borrower),
            db)
  end.

(** [if (x) f(x)]: the assignment is made for a truthy [x] only. *)
Definition when_set {A} (x : option A) (f : A → Document → Document)
    (d : Document) : Document :=
  match x with Some v => f v d | None => d end.

(** [transaction.path = x] for a truthy [x] on a [Number] path: the
    assignment of what [x] is cast to, or a refusal. *)
Definition assign_num (p : Path) (get : Transaction → Z)
    (set : Z → Transaction → Transaction) (cast : option Z) (d : Document)
    : Document :=
  match cast with
  | Some v => assign p get set v d
  | None => assign_invalid p d
  end.

(** [if (x) transaction.path = new Date(x)] *)
Definition assign_date (p : Path) (get : Transaction → Z)
    (set : Z → Transaction → Transaction) (x : DateInput) (d : Document) : Document :=
  match x with
  | date_absent => d
  | _ => match new_Date x with
         | Some v => assign p get set v d
         | None => assign_invalid p d
         end
  end.

(** [PUT /api/transactions/:id], the lines under
    [// Update transaction fields]. *)
Definition update_fields (body : UpdateBody.t) (transaction : Document) : Document :=
  let transaction :=
    when_set (truthy_num (UpdateBody.amount body))
      (assign_num p_amount amount with_amount) transaction in
  let transaction :=
    when_set (truthy_num (UpdateBody.interestRate body))
      (assign_num p_interestRate interestRate with_interestRate) transaction in
  let transaction :=
    assign_date p_dueDate dueDate with_dueDate
      (UpdateBody.dueDate body) transaction in
  let transaction :=
    assign_date p_startDate startDate with_startDate
      (UpdateBody.startDate body) transaction in
  let transaction :=
    when_set (truthy_str (UpdateBody.status body))
      (λ s d, match parse_status s with
              | Some v => assign p_status status with_status v d
              | None => assign_invalid p_status d
              end) transaction in
  when_set (truthy_str (UpdateBody.description body))
    (λ s, assign p_description description with_description (Some s))
    transaction.

(** [PUT /api/transactions/:id], the lines under
    [// If borrower username is updated, check if it exists in the
    database]. *)
Definition update_borrower (users : list User) (body : UpdateBody.t)
    (transaction : Document) : Document :=
  when_set (truthy_str (UpdateBody.borrower body))
    (λ b d,
       let d := assign p_borrower borrower with_borrower b d in
       let borrowerUser := findOne users b in
       match borrowerUser with
       | Some u => assign p_borrowerId borrowerId with_borrowerId (Some (_id u)) d
       | None => assign p_borrowerId borrowerId with_borrowerId None d
       end) transaction.

(** [PUT /api/transactions/:id] *)
Definition update_transaction (users : list User) (db : gmap N Transaction)
    (now : Z) (user : User) (id : ObjectId) (body : UpdateBody.t)
    : Response * gmap N Transaction :=
  match db !! id with
  | None => (NotFound, db)
  | Some stored =>
      if negb (bool_decide (lender stored = _id user)) then (Unauthorized, db)
      else
        let transaction := hydrate stored in
        let transaction := update_fields body transaction in
        let transaction := update_borrower users body transaction in
        match save now id transaction db with
        | Some (saved, db') => (OkData saved, db')
        | None => (ServerError, db)
        end
  end.

(** [DELETE /api/transactions/:id] *)
Definition delete_transaction (db : gmap N Transaction) (user : User)
    (id : ObjectId) : Response * gmap N Transaction :=
  match db !! id with
  | None => (NotFound, db)
  | Some transaction =>
      if negb (bool_decide (lender transaction = _id user)) then (Unauthorized, db)
      else (OkRemoved, delete id db)
  end.

(** [POST /api/transactions/:id/payment] *)
Definition add_payment (db : gmap N Transaction) (now : Z) (user : User)
    (id : ObjectId) (body : PaymentBody.t) : Response * gmap N Transaction :=
  if negb (isNumeric (PaymentBody.amount body)
           && not_empty_date (PaymentBody.date body))
  then (BadRequest, db)
  else
    match db !! id with
    | None => (NotFound, db)
    | Some stored =>
        if negb (isLender stored user) && negb (isBorrower stored user)
        then (Unauthorized, db)
        else
          match PaymentBody.amount body with
          | Some amount_ =>
              let transaction := hydrate stored in
              let transaction :=
                match new_Date (PaymentBody.date body) with
                | Some date_ =>
                    push_payment
                      (Payment.mk amount_ date_ (PaymentBody.notes body))
                      transaction
                | None =>
                    assign_invalid p_payments
                      (push_payment
                         (Payment.mk amount_ 0 (PaymentBody.notes body))
                         transaction)
                end in
              match save now id transaction db with
              | Some (saved, db') => (OkData saved, db')
              | None => (ServerError, db)
              end
          | None => (BadRequest, db)
          end
    end.

(** ** Runs of the service

    The collections reachable from the empty one by the handlers above. *)
Inductive Request :=
  | ReqCreate (oid : ObjectId) (body : CreateBody.t)
  | ReqList
  | ReqGet (id : ObjectId)
  | ReqUpdate (id : ObjectId) (body : UpdateBody.t)
  | ReqDelete (id : ObjectId)
  | ReqPayment (id : ObjectId) (body : PaymentBody.t).

Definition handle (users : list User) (db : gmap N Transaction) (now : Z)
    (user : User) (req : Request) : Response * gmap N Transaction :=
  match req with
  | ReqCreate oid body => create_transaction users db now oid user body
  | ReqList => list_transactions db user
  | ReqGet id => get_transaction db user id
  | ReqUpdate id body => update_transaction users db now user id body
  | ReqDelete id => delete_transaction db user id
  | ReqPayment id body => add_payment db now user id body
  end.

(** A response with a 2xx status. *)
Definition succeeded (r : Response) : bool :=
  match r with
  | Created _ _ _ | OkList _ | OkRecord _ _ | OkData _ | OkRemoved => true
  | _ => false
  end.

Inductive reachable : gmap N Transaction → Prop :=
  | reachable_empty : reachable ∅
  | reachable_step users db now user req :
      reachable db → reachable (handle users db now user req).2.

(** ** The sum of a payment history, as the specification reads it *)

Fixpoint total_of (ps : list Payment.t) : Z :=
  match ps with
  | [] => 0
  | p :: ps => Payment.amount p + total_of ps
  end.

(** ** Notions used by the properties *)

(** The fields that no hook writes. *)
Definition entered (t : Transaction) :=
  (lender t, borrower t, borrowerId t, amount t, interestRate t,
   startDate t, dueDate t, description t, payments t).

(** What an update never writes. *)
Definition kept (t : Transaction) :=
  (lender t, payments t, totalPaid t, remainingAmount t, createdAt t).

Definition untouched (stored : Transaction) (d : Document) : Prop :=
  isNew d = false ∧ (p_payments ∉ modifiedPaths d)
  ∧ kept (fields d) = kept stored.

(** The status of a document that [save] will accept. *)
Definition status_if_clean (s : Status) (d : Document) : Prop :=
  invalidPaths d = [] → status (fields d) = s.

(** The status a patch asks for: the one it names, when the [enum]
    has it. *)
Definition patched_status (body : UpdateBody.t) (s : Status) : Status :=
  match truthy_str (UpdateBody.status body) with
  | Some x => default s (parse_status x)
  | None => s
  end.

(** The document that a committed payment stores. *)
Definition paid (now : Z) (stored : Transaction) (p : Payment.t) : Transaction :=
  with_updatedAt now (pre_save now (push_payment p (hydrate stored))).

(** The document in memory when an update reaches [save]. *)
Definition patched (users : list User) (body : UpdateBody.t)
    (stored : Transaction) : Document :=
  update_borrower users body (update_fields body (hydrate stored)).

Definition authorised (t : Transaction) (user : User) : bool :=
  isLender t user || isBorrower t user.

(** The document that a committed creation stores. *)
Definition created (users : list User) (now : Z) (user : User)
    (b : string) (a i sd dd : Z) (desc : option string) : Transaction :=
  mkTransaction (_id user) b (_id <$> findOne users b) a i sd dd active desc
    [] 0 a now now.

(** What holds of every stored document: it passes the validators and
    its [totalPaid] is the sum of its payments. *)
Definition sound (t : Transaction) : Prop :=
  validators t = true ∧ totalPaid t = total_of (payments t).

(** The entries of the listing. *)
Definition history (db : gmap N Transaction) (user : User) : list Entry :=
  match (list_transactions db user).1 with
  | OkList h => h
  | _ => []
  end.

(** A required field of a creation request is missing. *)
Definition missing_field (body : CreateBody.t) : Prop :=
  truthy_str (CreateBody.borrower body) = None
  ∨ CreateBody.amount body = None
  ∨ CreateBody.interestRate body = None
  ∨ CreateBody.dueDate body = date_absent
  ∨ CreateBody.startDate body = date_absent.

(** ** A run of the service *)

Module Scenario.
Definition alice := mkUser 1 "alice".
Definition bob := mkUser 2 "bob".
Definition carol := mkUser 3 "carol".
Definition accounts := [alice; bob; carol].

(** At time 1000 alice lends 1000 to bob, due at 3000. *)
Definition loan : CreateBody.t :=
  CreateBody.mk (Some "bob"%string) (Some 1000) (Some 5)
    (date_valid 3000) (date_valid 1000) None.
Definition db1 : gmap N Transaction :=
  (create_transaction accounts ∅ 1000 7%N alice loan).2.

Definition pay (a t : Z) : PaymentBody.t :=
  PaymentBody.mk (Some a) (date_valid t) None.

(** At time 1100 bob pays the 1000 back. *)
Definition db2 : gmap N Transaction :=
  (add_payment db1 1100 bob 7%N (pay 1000 1100)).2.

Definition raise_principal : UpdateBody.t :=
  UpdateBody.mk (num_number 2000) num_absent date_absent date_absent
    None None None.
Definition reopen : UpdateBody.t :=
  UpdateBody.mk num_absent num_absent date_absent date_absent
    (Some "active"%string) None None.
Definition rename (b : string) : UpdateBody.t :=
  UpdateBody.mk num_absent num_absent date_absent date_absent None None
    (Some b).

(** At time 1000 alice records a loan of 100 to herself. *)
Definition self_loan : CreateBody.t :=
  CreateBody.mk (Some "alice"%string) (Some 100) (Some 0)
    (date_valid 2000) (date_valid 1000) None.
Definition db_self : gmap N Transaction :=
  (create_transaction accounts ∅ 1000 9%N alice self_loan).2.

(** A loan to dave, who has no account when it is recorded. *)
Definition dave := mkUser 4 "dave".
Definition loan_to_dave : CreateBody.t :=
  CreateBody.mk (Some "dave"%string) (Some 300) (Some 2)
    (date_valid 3000) (date_valid 1000) None.
Definition db_dave : gmap N Transaction :=
  (create_transaction accounts ∅ 1000 5%N alice loan_to_dave).2.
End Scenario.

(** ** The borrower lookups of [routes/transactions.js]

    The lookups answer with more of an account than the ledger reads:
    an account is a [User] together with the fields of its profile. *)
Module Account.
Record t := mk {
  user : User;
  fullName : string;
  fatherName : option string;
  phoneNumber : string;
  village : string;
  address : option string
}.
End Account.

(** The [user] object of the answer of a lookup. *)
Module Details.
Record t := mk {
  id : ObjectId;
  username : string;
  fullName : string;
  fatherName : string;
  phoneNumber : string;
  village : string;
  address : string
}.
End Details.

(** [{ id: user._id, ..., fatherName: user.fatherName || '', ...,
    address: user.address || '' }] *)
Definition details_of (user : Account.t) : Details.t :=
  Details.mk (_id (Account.user user)) (username (Account.user user))
    (Account.fullName user) (default ""%string (Account.fatherName user))
    (Account.phoneNumber user) (Account.village user)
    (default ""%string (Account.address user)).

(** The answer of a lookup: [exists: true] with the details, or
    [exists: false]. *)
Inductive Lookup := Exists_ (user : Details.t) | NotExists.

(** [GET /api/transactions/check-borrower/:username]; the query is on
    [username], whose setter trims the name looked up. *)
Definition check_borrower (accounts : list Account.t) (name : string) : Lookup :=
  match head (filter (λ a, username (Account.user a) = trim name) accounts) with
  | Some user => Exists_ (details_of user)
  | None => NotExists
  end.

(** [GET /api/transactions/check-phone/:phoneNumber]; the path
    [phoneNumber] has no setter. *)
Definition check_phone (accounts : list Account.t) (phone : string) : Lookup :=
  match head (filter (λ a, Account.phoneNumber a = phone) accounts) with
  | Some user => Exists_ (details_of user)
  | None => NotExists
  end.

(** ** [POST /api/auth/validate-password] of [routes/auth.js]

    A password is the sequence of the code units of the string, which is
    what [length] counts and what the character classes test. *)
Module Password.
Definition upper (c : N) : bool := ((65 <=? c) && (c <=? 90))%N.
Definition lower (c : N) : bool := ((97 <=? c) && (c <=? 122))%N.
Definition digit (c : N) : bool := ((48 <=? c) && (c <=? 57))%N.

(** The class of special characters that the handler tests, by code
    unit: the punctuation marks of codes 33 to 38, 40 to 42, 44, 46, 58,
    60, 62 to 64, 94 and 123 to 125, in the order the source lists
    them. *)
Definition special_chars : list N :=
  [33; 64; 35; 36; 37; 94; 38; 42; 40; 41; 44; 46; 63; 34; 58; 123; 125;
   124; 60; 62]%N.
Definition special (c : N) : bool := bool_decide (c ∈ special_chars).

(** [/[cls]/.test(password)] *)
Definition test (cls : N → bool) (password : list N) : bool :=
  existsb cls password.

Record Validations := mkValidations {
  minLength : bool;
  hasUpperCase : bool;
  hasLowerCase : bool;
  hasNumber : bool;
  hasSpecialChar : bool
}.

Definition validations (password : list N) : Validations :=
  mkValidations (8 <=? length password)%nat (test upper password)
    (test lower password) (test digit password) (test special password).

(** [Object.values(validations).filter(Boolean).length] *)
Definition strength (v : Validations) : nat :=
  length (List.filter (λ b : bool, b)
            [minLength v; hasUpperCase v; hasLowerCase v; hasNumber v;
             hasSpecialChar v]).

Inductive Level := weak | medium | strong.

Definition strengthLevel (n : nat) : Level :=
  if (5 <=? n)%nat then strong
  else if (3 <=? n)%nat then medium
  else weak.

Inductive Answer :=
  | Refused                                              (* 400 *)
  | Report (v : Validations) (level : Level) (isStrong : bool).

(** The handler; [None] is a body without [password]. *)
Definition validate_password (password : option (list N)) : Answer :=
  match password with
  | None => Refused
  | Some password =>
      let v := validations password in
      let level := strengthLevel (strength v) in
      Report v level (match level with strong => true | _ => false end)
  end.

(** The order of the levels. *)
Definition rank (l : Level) : nat :=
  match l with weak => 0 | medium => 1 | strong => 2 end.
End Password.

(** ** Notions used by the further properties *)

(** The record that a request names. *)
Definition target (req : Request) : option ObjectId :=
  match req with
  | ReqCreate oid _ => Some oid
  | ReqList => None
  | ReqGet id | ReqUpdate id _ | ReqDelete id | ReqPayment id _ => Some id
  end.

(** The fields of a stored record after a patch, as [save] accepts it. *)
Definition apply_patch (users : list User) (body : UpdateBody.t)
    (t : Transaction) : Transaction :=
  mkTransaction (lender t)
    (default (borrower t) (truthy_str (UpdateBody.borrower body)))
    (match truthy_str (UpdateBody.borrower body) with
     | Some b => _id <$> findOne users b
     | None => borrowerId t
     end)
    (default (amount t) (mjoin (truthy_num (UpdateBody.amount body))))
    (default (interestRate t)
       (mjoin (truthy_num (UpdateBody.interestRate body))))
    (default (startDate t) (new_Date (UpdateBody.startDate body)))
    (default (dueDate t) (new_Date (UpdateBody.dueDate body)))
    (patched_status body (status t))
    (match truthy_str (UpdateBody.description body) with
     | Some s => Some s
     | None => description t
     end)
    (payments t) (totalPaid t) (remainingAmount t) (createdAt t) (updatedAt t).

(** A patch without a value that a path refuses: no truthy amount or
    rate that is not cast to a number, no date that fails to parse, no
    status outside the [enum]. *)
Definition patch_clean (body : UpdateBody.t) : bool :=
  match truthy_num (UpdateBody.amount body) with
  | Some None => false | _ => true end
  && match truthy_num (UpdateBody.interestRate body) with
     | Some None => false | _ => true end
  && match UpdateBody.dueDate body with date_invalid => false | _ => true end
  && match UpdateBody.startDate body with date_invalid => false | _ => true end
  && match truthy_str (UpdateBody.status body) with
     | Some s => bool_decide (is_Some (parse_status s)) | None => true end.

(** A patch that [save] accepts: a clean one whose amount and rate, when
    it carries them, are what the validators ask for. *)
Definition patch_ok (body : UpdateBody.t) : bool :=
  match truthy_num (UpdateBody.amount body) with
  | Some (Some a) => bool_decide (1 ≤ a) | _ => true end
  && match truthy_num (UpdateBody.interestRate body) with
     | Some (Some i) => bool_decide (0 ≤ i) | _ => true end
  && patch_clean body.

(** A patch without a truthy field. *)
Definition empty_patch (body : UpdateBody.t) : Prop :=
  truthy_num (UpdateBody.amount body) = None
  ∧ truthy_num (UpdateBody.interestRate body) = None
  ∧ UpdateBody.dueDate body = date_absent
  ∧ UpdateBody.startDate body = date_absent
  ∧ truthy_str (UpdateBody.status body) = None
  ∧ truthy_str (UpdateBody.description body) = None
  ∧ truthy_str (UpdateBody.borrower body) = None.

(** * Properties *)

(** ** Trimming *)

(** The encodings of the white space, byte by byte. *)
Example white_space_bytes :
  white_space =
    [[9]; [10]; [11]; [12]; [13]; [32]; [194; 160]; [225; 154; 128];
     [226; 128; 128]; [226; 128; 129]; [226; 128; 130]; [226; 128; 131];
     [226; 128; 132]; [226; 128; 133]; [226; 128; 134]; [226; 128; 135];
     [226; 128; 136]; [226; 128; 137]; [226; 128; 138]; [226; 128; 168];
     [226; 128; 169]; [226; 128; 175]; [226; 129; 159]; [227; 128; 128];
     [239; 187; 191]]%N.
Proof. reflexivity. Qed.

(** White space goes at both ends and stays inside; a tab, a line feed
    and a no-break space are white space; the bytes of a letter with an
    accent and those of the zero-width space are not. *)
Example trim_examples :
  let bytes l := String.string_of_list_ascii (Ascii.ascii_of_N <$> l) in
  trim " bob " = "bob"%string
  ∧ trim "bob" = "bob"%string
  ∧ trim "" = ""%string
  ∧ trim "   " = ""%string
  ∧ trim " a b  " = "a b"%string
  ∧ trim (bytes [9; 98; 111; 98; 10]%N) = "bob"%string
  ∧ trim (bytes [194; 160; 98; 111; 98; 226; 128; 168]%N) = "bob"%string
  ∧ trim (bytes [195; 169; 32]%N) = bytes [195; 169]%N
  ∧ trim (bytes [226; 128; 139; 98]%N) = bytes [226; 128; 139; 98]%N.
Proof. vm_compute. repeat split. Qed.

(** ** The sort *)

Section Sort.
Context {A : Type} (key : A → Z).

Global Instance newest_first_total : Total (newest_first key).
Proof. intros a b. unfold newest_first. lia. Qed.

Global Instance newest_first_trans : Transitive (newest_first key).
Proof. intros a b c. unfold newest_first. lia. Qed.

Lemma insert_desc_perm x l : insert_desc key x l ≡ₚ x :: l.
Proof.
  induction l as [|y l IH]; simpl; [done|].
  case_decide; [done|]. rewrite IH. apply Permutation_swap.
Qed.

Lemma sort_desc_perm l : sort_desc key l ≡ₚ l.
Proof.
  induction l as [|x l IH]; simpl; [done|].
  rewrite insert_desc_perm. by f_equiv.
Qed.

Lemma insert_desc_sorted x l :
  Sorted (newest_first key) l → Sorted (newest_first key) (insert_desc key x l).
Proof.
  induction 1 as [|y l Hl IH Hhd]; simpl.
  - by repeat constructor.
  - case_decide as Hxy.
    + by repeat constructor.
    + assert (newest_first key y x) by (by destruct (total (newest_first key) x y)).
      constructor; [done|].
      destruct Hhd as [|z l' Hyz]; simpl; [by constructor|].
      case_decide; by constructor.
Qed.

Lemma sort_desc_sorted l : StronglySorted (newest_first key) (sort_desc key l).
Proof.
  apply Sorted_StronglySorted; [apply _|].
  induction l as [|x l IH]; simpl; [constructor|].
  by apply insert_desc_sorted.
Qed.

Lemma elem_of_sort_desc x l : x ∈ sort_desc key l ↔ x ∈ l.
Proof. by rewrite sort_desc_perm. Qed.

Lemma NoDup_sort_desc l : NoDup (sort_desc key l) ↔ NoDup l.
Proof. by rewrite sort_desc_perm. Qed.
End Sort.

Example sort_desc_stable :
  sort_desc fst [(1,1);(2,2);(1,3);(2,4);(3,5);(1,6)]
  = [(3,5);(2,2);(2,4);(1,1);(1,3);(1,6)].
Proof. reflexivity. Qed.

(** ** The sum *)

Lemma foldl_payments a ps :
  foldl (λ sum payment, sum + Payment.amount payment) a ps = a + total_of ps.
Proof.
  revert a. induction ps as [|p ps IH]; intros a; simpl.
  - lia.
  - rewrite IH. lia.
Qed.

Lemma sum_payments_total ps : sum_payments ps = total_of ps.
Proof. unfold sum_payments. rewrite foldl_payments. lia. Qed.


(** ** The hooks *)

Lemma pre_save_entered now d : entered (pre_save now d) = entered (fields d).
Proof. unfold pre_save. repeat case_match; reflexivity. Qed.

Lemma pre_save_stamps now d :
  createdAt (pre_save now d) = createdAt (fields d)
  ∧ updatedAt (pre_save now d) = updatedAt (fields d).
Proof. unfold pre_save. repeat case_match; done. Qed.

Lemma pre_save_unmodified now d :
  isModified p_payments d = false → pre_save now d = fields d.
Proof. unfold pre_save. by intros ->. Qed.

Lemma pre_save_derived now d :
  isModified p_payments d = true →
  let t := fields d in
  let t' := pre_save now d in
  totalPaid t' = total_of (payments t)
  ∧ remainingAmount t' = amount t - total_of (payments t)
  ∧ status t' =
      if decide (amount t - total_of (payments t) ≤ 0) then completed
      else if decide (dueDate t < now ∧ status t ≠ completed) then overdue
      else status t.
Proof.
  intros Hm. unfold pre_save. rewrite Hm. simpl.
  rewrite sum_payments_total.
  repeat case_decide; simpl; done.
Qed.

Lemma timestamps_entered now d t : entered (timestamps now d t) = entered t.
Proof. unfold timestamps. repeat case_match; reflexivity. Qed.

Lemma timestamps_derived now d t :
  totalPaid (timestamps now d t) = totalPaid t
  ∧ remainingAmount (timestamps now d t) = remainingAmount t
  ∧ status (timestamps now d t) = status t.
Proof. unfold timestamps. repeat case_match; done. Qed.

Lemma timestamps_createdAt now d t :
  isNew d = false → createdAt (timestamps now d t) = createdAt t.
Proof. unfold timestamps. intros ->. by case_match. Qed.

Lemma validators_entered t t' :
  entered t = entered t' → validators t = validators t'.
Proof.
  unfold entered, validators. intros H.
  injection H as _ _ _ Ha Hi _ _ _ _. by rewrite Ha, Hi.
Qed.

(** ** [save] *)

Lemma save_Some now id d db t db' :
  save now id d db = Some (t, db') →
  validate d = true
  ∧ t = timestamps now d (pre_save now d)
  ∧ db' = <[id := t]> db
  ∧ (isNew d = true → db !! id = None).
Proof.
  unfold save. destruct (validate d); [|done].
  destruct (isNew d) eqn:Hnew; simpl.
  - case_bool_decide as Hid; [done|]. intros [= <- <-].
    repeat split; try done. intros _.
    destruct (db !! id) eqn:E; [|done]. destruct Hid. by eexists.
  - intros [= <- <-]. by repeat split.
Qed.

Lemma save_stored now id d db :
  isNew d = false → validate d = true →
  save now id d db =
    Some (timestamps now d (pre_save now d),
          <[id := timestamps now d (pre_save now d)]> db).
Proof. unfold save. by intros -> ->. Qed.

Lemma save_None_or_insert now id d db :
  save now id d db = None
  ∨ ∃ t, save now id d db = Some (t, <[id := t]> db).
Proof.
  destruct (save now id d db) as [[t db']|] eqn:E; [|by left].
  right. apply save_Some in E as (_ & _ & -> & _). by eexists.
Qed.

(** ** Assignments to a stored document *)

Lemma when_set_ind {A} (P : Document → Prop) (x : option A) f d :
  P d → (∀ v d, P d → P (f v d)) → P (when_set x f d).
Proof. destruct x; simpl; auto. Qed.

Lemma assign_date_ind (P : Document → Prop) p get set x d :
  P d → (∀ v d, P d → P (assign p get set v d)) →
  (∀ d, P d → P (assign_invalid p d)) →
  P (assign_date p get set x d).
Proof. destruct x; simpl; auto. Qed.

Lemma assign_num_ind (P : Document → Prop) p get set cast d :
  P d → (∀ v d, P d → P (assign p get set v d)) →
  (∀ d, P d → P (assign_invalid p d)) →
  P (assign_num p get set cast d).
Proof. destruct cast; simpl; auto. Qed.

Lemma untouched_assign {A} `{EqDecision A} stored p get set (v : A) d :
  p ≠ p_payments → (∀ t, kept (set v t) = kept t) →
  untouched stored d → untouched stored (assign p get set v d).
Proof.
  intros Hp Hset (Hnew & Hmod & Hkept). unfold untouched, assign. simpl.
  split; [done|]. split; [|by rewrite Hset].
  case_decide; [done|]. rewrite elem_of_cons. intros [?|?]; by auto.
Qed.

Lemma untouched_assign_invalid stored p d :
  untouched stored d → untouched stored (assign_invalid p d).
Proof. by intros (? & ? & ?). Qed.

Lemma status_assign {A} `{EqDecision A} s p get set (v : A) d :
  (∀ t, status (set v t) = status t) →
  status_if_clean s d → status_if_clean s (assign p get set v d).
Proof. intros Hset Hs Hclean. simpl. rewrite Hset. by apply Hs. Qed.

Lemma status_assign_invalid s p d : status_if_clean s (assign_invalid p d).
Proof. intros Hclean. done. Qed.

Ltac step_through P lem_assign lem_invalid :=
  repeat first
    [ assumption
    | apply (when_set_ind P); [|intros ? ? ?]
    | apply (assign_date_ind P); [|intros ? ? ?|intros ? ?]
    | apply (assign_num_ind P); [|intros ? ? ?|intros ? ?]
    | apply lem_invalid
    | apply lem_assign; [done..|]
    | case_match ].

Lemma update_fields_untouched stored body d :
  untouched stored d → untouched stored (update_fields body d).
Proof.
  intros Hd. unfold update_fields.
  step_through (untouched stored) (@untouched_assign) untouched_assign_invalid.
Qed.

Lemma update_borrower_untouched stored users body d :
  untouched stored d → untouched stored (update_borrower users body d).
Proof.
  intros Hd. unfold update_borrower.
  step_through (untouched stored) (@untouched_assign) untouched_assign_invalid.
Qed.

Lemma hydrate_untouched stored : untouched stored (hydrate stored).
Proof. unfold untouched, hydrate. simpl. rewrite elem_of_nil. naive_solver. Qed.

Lemma update_fields_status s body d :
  status_if_clean s d →
  status_if_clean (patched_status body s) (update_fields body d).
Proof.
  intros Hd. unfold update_fields, patched_status.
  apply (when_set_ind (status_if_clean _)); [|intros; by apply status_assign].
  destruct (truthy_str (UpdateBody.status body)) as [x|]; simpl.
  - destruct (parse_status x) as [v|]; simpl;
      [|apply status_assign_invalid].
    intros _. reflexivity.
  - step_through (status_if_clean s) (@status_assign) status_assign_invalid.
Qed.

Lemma update_borrower_status s users body d :
  status_if_clean s d → status_if_clean s (update_borrower users body d).
Proof.
  intros Hd. unfold update_borrower.
  step_through (status_if_clean s) (@status_assign) status_assign_invalid.
Qed.

Lemma update_borrower_fields users body d :
  fields (update_borrower users body d) =
    match truthy_str (UpdateBody.borrower body) with
    | Some b => with_borrowerId (_id <$> findOne users b)
                  (with_borrower b (fields d))
    | None => fields d
    end.
Proof.
  unfold update_borrower.
  destruct (truthy_str (UpdateBody.borrower body)) as [b|]; simpl; [|done].
  by destruct (findOne users b).
Qed.

(** ** What the handlers commit *)

Lemma add_payment_commit db now user id stored a dt n :
  db !! id = Some stored → authorised stored user = true →
  validators stored = true →
  add_payment db now user id (PaymentBody.mk (Some a) (date_valid dt) n)
  = (OkData (paid now stored (Payment.mk a dt n)),
     <[id := paid now stored (Payment.mk a dt n)]> db).
Proof.
  intros Hid Hauth Hval. unfold add_payment, authorised in *. simpl.
  rewrite Hid.
  destruct (isLender stored user), (isBorrower stored user); try done; simpl.
  all: rewrite save_stored.
  all: try reflexivity.
  all: exact Hval.
Qed.

Lemma add_payment_inv db now user id body resp db' :
  add_payment db now user id body = (resp, db') →
  (succeeded resp = false ∧ db' = db)
  ∨ ∃ stored a dt,
      db !! id = Some stored
      ∧ PaymentBody.amount body = Some a
      ∧ PaymentBody.date body = date_valid dt
      ∧ authorised stored user = true
      ∧ validators stored = true
      ∧ resp = OkData (paid now stored (Payment.mk a dt (PaymentBody.notes body)))
      ∧ db' = <[id := paid now stored (Payment.mk a dt (PaymentBody.notes body))]> db.
Proof.
  unfold add_payment. destruct body as [[a|] dt n]; simpl;
    [|intros [= <- <-]; by left].
  destruct (not_empty_date dt) eqn:Hdt; simpl; [|intros [= <- <-]; by left].
  destruct (db !! id) as [stored|] eqn:Hid; [|intros [= <- <-]; by left].
  destruct (negb (isLender stored user) && negb (isBorrower stored user)) eqn:Hauth;
    [intros [= <- <-]; by left|].
  destruct dt as [| |t]; simpl.
  - done.
  - unfold save, validate. simpl. intros [= <- <-]; by left.
  - destruct (save _ _ _ _) as [[saved db1]|] eqn:Hsave;
      [|intros [= <- <-]; by left].
    intros [= <- <-]. right. exists stored, a, t.
    apply save_Some in Hsave as (Hval & -> & -> & _).
    change (validators stored = true) in Hval.
    unfold authorised. repeat split; try done.
    by destruct (isLender stored user), (isBorrower stored user).
Qed.

Lemma patched_untouched users body stored :
  untouched stored (patched users body stored).
Proof.
  apply update_borrower_untouched, update_fields_untouched, hydrate_untouched.
Qed.

Lemma pre_save_patched now users body stored :
  pre_save now (patched users body stored) = fields (patched users body stored).
Proof.
  apply pre_save_unmodified. unfold isModified.
  destruct (patched_untouched users body stored) as (_ & Hmod & _).
  by apply bool_decide_eq_false.
Qed.

Lemma update_transaction_inv users db now user id body resp db' :
  update_transaction users db now user id body = (resp, db') →
  (succeeded resp = false ∧ db' = db)
  ∨ ∃ stored,
      let d := patched users body stored in
      db !! id = Some stored
      ∧ lender stored = _id user
      ∧ validate d = true
      ∧ resp = OkData (timestamps now d (fields d))
      ∧ db' = <[id := timestamps now d (fields d)]> db.
Proof.
  unfold update_transaction.
  destruct (db !! id) as [stored|] eqn:Hid; [|intros [= <- <-]; by left].
  case_bool_decide as Hl; simpl; [|intros [= <- <-]; by left].
  fold (patched users body stored).
  destruct (save _ _ _ _) as [[saved db1]|] eqn:Hsave;
    [|intros [= <- <-]; by left].
  intros [= <- <-]. right. exists stored.
  apply save_Some in Hsave as (Hval & -> & -> & _).
  by rewrite pre_save_patched.
Qed.

Lemma update_transaction_commit users db now user id body stored :
  db !! id = Some stored → lender stored = _id user →
  validate (patched users body stored) = true →
  let d := patched users body stored in
  update_transaction users db now user id body
  = (OkData (timestamps now d (fields d)),
     <[id := timestamps now d (fields d)]> db).
Proof.
  intros Hid Hl Hval. unfold update_transaction. rewrite Hid.
  rewrite bool_decide_eq_true_2 by done. simpl.
  fold (patched users body stored).
  rewrite save_stored; [|apply patched_untouched|done].
  by rewrite pre_save_patched.
Qed.

Lemma create_transaction_inv users db now oid user body resp db' :
  create_transaction users db now oid user body = (resp, db') →
  (succeeded resp = false ∧ db' = db)
  ∨ ∃ b a i sd dd,
      body = CreateBody.mk (Some b) (Some a) (Some i) (date_valid dd)
               (date_valid sd) (CreateBody.description body)
      ∧ b ≠ ""%string ∧ 1 ≤ a ∧ 0 ≤ i ∧ db !! oid = None
      ∧ resp = Created oid
                 (created users now user b a i sd dd (CreateBody.description body))
                 (bool_decide (is_Some (findOne users b)))
      ∧ db' = <[oid := created users now user b a i sd dd
                          (CreateBody.description body)]> db.
Proof.
  unfold create_transaction.
  destruct body as [[b|] [a|] [i|] dd sd desc]; simpl;
    try (intros [= <- <-]; by left);
    try (case_match; intros [= <- <-]; by left).
  unfold not_empty_str, truthy_str.
  destruct (decide (b = ""%string)) as [->|Hb]; simpl;
    [intros [= <- <-]; by left|].
  destruct dd as [| |dd]; simpl; try (intros [= <- <-]; by left);
    destruct sd as [| |sd]; simpl; try (intros [= <- <-]; by left).
  all: destruct (save _ _ _ _) as [[saved db1]|] eqn:Hsave;
    [|intros [= <- <-]; by left].
  all: apply save_Some in Hsave as (Hval & Hsaved & -> & Hnew).
  all: destruct (findOne users b) as [u|] eqn:Hu, desc as [desc|]; simpl in *;
    unfold validate, validators in Hval; simpl in Hval;
    try done.
  all: intros [= <- <-]; right; exists b, a, i, sd, dd.
  all: apply andb_prop in Hval as [Ha Hi];
    apply bool_decide_eq_true in Ha, Hi.
  all: unfold created; rewrite Hu; subst saved.
  all: repeat split; try done; try (by apply Hnew).
Qed.

Lemma create_transaction_commit users db now oid user b a i sd dd desc :
  b ≠ ""%string → 1 ≤ a → 0 ≤ i → db !! oid = None →
  create_transaction users db now oid user
    (CreateBody.mk (Some b) (Some a) (Some i) (date_valid dd) (date_valid sd) desc)
  = (Created oid (created users now user b a i sd dd desc)
       (bool_decide (is_Some (findOne users b))),
     <[oid := created users now user b a i sd dd desc]> db).
Proof.
  intros Hb Ha Hi Hfresh. unfold create_transaction, created. simpl.
  unfold not_empty_str, truthy_str. rewrite decide_False by done. simpl.
  unfold save, validate, validators.
  destruct (findOne users b) as [u|], desc as [desc|]; simpl.
  all: rewrite !bool_decide_eq_true_2 by done; simpl.
  all: rewrite Hfresh; simpl.
  all: reflexivity.
Qed.

Lemma isModified_push p d : isModified p_payments (push_payment p d) = true.
Proof. apply bool_decide_eq_true. simpl. by left. Qed.

Lemma paid_entered now stored p :
  let t' := paid now stored p in
  lender t' = lender stored ∧ borrower t' = borrower stored
  ∧ borrowerId t' = borrowerId stored ∧ amount t' = amount stored
  ∧ interestRate t' = interestRate stored ∧ startDate t' = startDate stored
  ∧ dueDate t' = dueDate stored ∧ description t' = description stored
  ∧ createdAt t' = createdAt stored ∧ updatedAt t' = now
  ∧ payments t' = payments stored ++ [p].
Proof.
  unfold paid, pre_save. rewrite isModified_push. simpl.
  repeat case_decide; simpl; done.
Qed.

Lemma paid_derived now stored p :
  let t' := paid now stored p in
  let total := total_of (payments stored ++ [p]) in
  totalPaid t' = total
  ∧ remainingAmount t' = amount stored - total
  ∧ status t' =
      if decide (amount stored - total ≤ 0) then completed
      else if decide (dueDate stored < now ∧ status stored ≠ completed)
           then overdue
      else status stored.
Proof.
  destruct (pre_save_derived now (push_payment p (hydrate stored))
              (isModified_push _ _)) as (Ht & Hr & Hs).
  simpl in *. unfold paid. simpl. by rewrite Ht, Hr, Hs.
Qed.

(** ** What holds of every stored document *)

Lemma kept_fields t t' :
  kept t = kept t' →
  lender t = lender t' ∧ payments t = payments t'
  ∧ totalPaid t = totalPaid t' ∧ remainingAmount t = remainingAmount t'
  ∧ createdAt t = createdAt t'.
Proof. unfold kept. intros H. by injection H as -> -> -> -> ->. Qed.

Lemma entered_payments t t' : entered t = entered t' → payments t = payments t'.
Proof. unfold entered. intros H. by injection H. Qed.

(** What a committed update stores, against what was stored. *)
Lemma updated_kept now users body stored :
  let d := patched users body stored in
  let t' := timestamps now d (fields d) in
  lender t' = lender stored ∧ payments t' = payments stored
  ∧ totalPaid t' = totalPaid stored
  ∧ remainingAmount t' = remainingAmount stored
  ∧ createdAt t' = createdAt stored
  ∧ status t' = status (fields d)
  ∧ entered t' = entered (fields d).
Proof.
  intros d t'.
  destruct (patched_untouched users body stored) as (Hnew & _ & Hk).
  apply kept_fields in Hk as (Hl & Hp & Ht & Hr & Hc).
  destruct (timestamps_derived now d (fields d)) as (Ht' & Hr' & Hs').
  pose proof (timestamps_entered now d (fields d)) as He.
  pose proof (timestamps_createdAt now d (fields d) Hnew) as Hc'.
  fold d in Hl, Hp, Ht, Hr, Hc. subst t'.
  rewrite Ht', Hr', Hs', Hc', (entered_payments _ _ He).
  repeat split; try done.
  transitivity (lender (fields d)); [|done].
  unfold entered in He. by injection He.
Qed.

Lemma handle_sound users db now user req :
  map_Forall (λ _ t, sound t) db →
  map_Forall (λ _ t, sound t) (handle users db now user req).2.
Proof.
  intros Hdb.
  destruct (handle users db now user req) as [resp db'] eqn:Hreq. simpl.
  destruct req as [oid body| |id|id body|id|id body]; simpl in Hreq.
  - apply create_transaction_inv in Hreq
      as [[_ ->]|(b & a & i & sd & dd & _ & _ & Ha & Hi & _ & _ & ->)]; [done|].
    apply map_Forall_insert_2; [|done].
    split; [|done]. unfold validators, created. simpl.
    by rewrite !bool_decide_eq_true_2.
  - by injection Hreq as _ <-.
  - unfold get_transaction in Hreq. repeat case_match; by injection Hreq as _ <-.
  - apply update_transaction_inv in Hreq
      as [[_ ->]|(stored & Hid & _ & Hval & _ & ->)]; [done|].
    apply map_Forall_insert_2; [|done].
    destruct (Hdb _ _ Hid) as [_ Hsum].
    destruct (updated_kept now users body stored) as (_ & Hp & Ht & _ & _ & _ & He).
    split.
    + rewrite (validators_entered _ _ He).
      unfold validate in Hval. by apply andb_prop in Hval as [_ ?].
    + by rewrite Ht, Hp.
  - unfold delete_transaction in Hreq.
    repeat case_match; injection Hreq as _ <-; try done.
    by apply map_Forall_delete.
  - apply add_payment_inv in Hreq
      as [[_ ->]|(stored & a & dt & Hid & _ & _ & _ & Hval & _ & ->)]; [done|].
    apply map_Forall_insert_2; [|done].
    destruct (paid_entered now stored (Payment.mk a dt (PaymentBody.notes body)))
      as (_ & _ & _ & Ha & Hi & _ & _ & _ & _ & _ & Hp).
    destruct (paid_derived now stored (Payment.mk a dt (PaymentBody.notes body)))
      as (Ht & _ & _).
    split; [|by rewrite Ht, Hp].
    unfold validators in *. by rewrite Ha, Hi.
Qed.

Lemma reachable_sound db id t : reachable db → db !! id = Some t → sound t.
Proof.
  intros Hr. revert id t. change (map_Forall (λ _ t, sound t) db).
  induction Hr as [|users db now user req _ IH].
  - apply map_Forall_empty.
  - by apply handle_sound.
Qed.

(** ** Queries *)

Lemma findOne_Some users name u :
  findOne users name = Some u → u ∈ users ∧ username u = trim name.
Proof.
  unfold findOne. intros H. apply head_Some_elem_of in H.
  apply list_elem_of_filter in H. tauto.
Qed.

Lemma findOne_None users name u :
  findOne users name = None → u ∈ users → username u ≠ trim name.
Proof.
  unfold findOne. intros H Hu Hname. apply head_None in H.
  by eapply (filter_nil_not_elem_of _ _ u).
Qed.

Lemma NoDup_fmap_eq {A B} (f : A → B) l x y :
  NoDup (f <$> l) → x ∈ l → y ∈ l → f x = f y → x = y.
Proof.
  induction l as [|z l IH]; [by intros _ ?%elem_of_nil|].
  rewrite fmap_cons, NoDup_cons, !elem_of_cons.
  intros [Hz Hl] [->|Hx] [->|Hy] Hf; auto.
  - destruct Hz. rewrite Hf. by apply list_elem_of_fmap_2.
  - destruct Hz. rewrite <-Hf. by apply list_elem_of_fmap_2.
Qed.

(** With a unique index on [username], the account found is the one
    that bears the trimmed name. *)
Lemma findOne_unique users name u :
  NoDup (username <$> users) → u ∈ users → username u = trim name →
  findOne users name = Some u.
Proof.
  intros Hnd Hu Hname. destruct (findOne users name) as [u'|] eqn:E.
  - apply findOne_Some in E as [Hu' Hname'].
    f_equal. eapply NoDup_fmap_eq; [done..|]. congruence.
  - by destruct (findOne_None _ _ u E Hu).
Qed.

Global Instance tag_inj r : Inj (=) (=) (tag r).
Proof. intros [i t] [i' t']. unfold tag. simpl. by intros [= -> ->]. Qed.

Lemma elem_of_find (q : ObjectId * Transaction → Prop) `{!∀ x, Decision (q x)}
    (db : gmap N Transaction) i t :
  (i, t) ∈ find q db ↔ q (i, t) ∧ db !! i = Some t.
Proof. unfold find. by rewrite list_elem_of_filter, elem_of_map_to_list. Qed.

Lemma NoDup_find (q : ObjectId * Transaction → Prop) `{!∀ x, Decision (q x)}
    (db : gmap N Transaction) : NoDup (find q db).
Proof. apply NoDup_filter, NoDup_map_to_list. Qed.

Lemma elem_of_tagged r key (l : list (ObjectId * Transaction)) e :
  e ∈ tag r <$> sort_desc key l
  ↔ role e = r ∧ (entry_id e, entry_doc e) ∈ l.
Proof.
  rewrite list_elem_of_fmap. split.
  - intros ([i t] & -> & H). by apply elem_of_sort_desc in H.
  - intros [<- H]. exists (entry_id e, entry_doc e).
    split; [by destruct e|]. by apply elem_of_sort_desc.
Qed.

Lemma list_transactions_history db user :
  list_transactions db user = (OkList (history db user), db).
Proof. reflexivity. Qed.

Lemma elem_of_history db user e :
  e ∈ history db user ↔
    db !! entry_id e = Some (entry_doc e)
    ∧ (role e = role_lender ∧ lender (entry_doc e) = _id user
       ∨ role e = role_borrower
         ∧ (borrowerId (entry_doc e) = Some (_id user)
            ∨ borrower (entry_doc e) = username user)).
Proof.
  unfold history, list_transactions. simpl.
  rewrite elem_of_sort_desc, !elem_of_app, !elem_of_tagged.
  rewrite !elem_of_find. simpl.
  destruct (decide (borrowerId (entry_doc e) = Some (_id user))); intuition congruence.
Qed.

Lemma db1_reachable : reachable Scenario.db1.
Proof.
  apply (reachable_step Scenario.accounts ∅ 1000 Scenario.alice
           (ReqCreate 7%N Scenario.loan)), reachable_empty.
Qed.

Lemma db2_reachable : reachable Scenario.db2.
Proof.
  apply (reachable_step Scenario.accounts Scenario.db1 1100 Scenario.bob
           (ReqPayment 7%N (Scenario.pay 1000 1100))), db1_reachable.
Qed.

(** The two examples of the specification: payments of 400 and 600 on a
    principal of 1000 complete the loan; a payment of 100 on a principal
    of 500 after the due date leaves it overdue. *)
Example two_payments_complete :
  let db := (add_payment Scenario.db1 1100 Scenario.bob 7%N (Scenario.pay 400 1100)).2 in
  let db := (add_payment db 1200 Scenario.bob 7%N (Scenario.pay 600 1200)).2 in
  (λ t, (totalPaid t, remainingAmount t, status t)) <$> db !! 7%N
  = Some (1000, 0, completed).
Proof. vm_compute. reflexivity. Qed.

Example late_payment_overdue :
  let db := (create_transaction Scenario.accounts ∅ 1000 8%N Scenario.alice
               (CreateBody.mk (Some "bob"%string) (Some 500) (Some 5)
                  (date_valid 900) (date_valid 800) None)).2 in
  let db := (add_payment db 1100 Scenario.bob 8%N (Scenario.pay 100 1100)).2 in
  (λ t, (totalPaid t, remainingAmount t, status t)) <$> db !! 8%N
  = Some (100, 400, overdue).
Proof. vm_compute. reflexivity. Qed.

(** The third example: a loan to a name that no account bears has no
    [borrowerId]; once the account exists, an update that carries the
    name again resolves it. *)
Example late_resolution :
  borrowerId <$> Scenario.db_dave !! 5%N = Some None
  ∧ borrowerId <$>
      (update_transaction (Scenario.dave :: Scenario.accounts) Scenario.db_dave
         1100 Scenario.alice 5%N (Scenario.rename "dave")).2 !! 5%N
    = Some (Some 4%N).
Proof. split; vm_compute; reflexivity. Qed.

(** * The claims *)




Lemma patched_status_spec users body stored :
  validate (patched users body stored) = true →
  status (fields (patched users body stored))
  = patched_status body (status stored).
Proof.
  intros Hval. unfold validate in Hval.
  apply andb_prop in Hval as [Hclean%bool_decide_eq_true _].
  revert Hclean.
  apply update_borrower_status, update_fields_status. by intros _.
Qed.

(** C2, as it holds of the handlers.  After a committed payment addition a record with
    [remainingAmount <= 0] has status [completed]; a record just created
    has a [remainingAmount] equal to its [amount], which is at least 1,
    and the status [active].  A committed
    update derives nothing: it leaves [remainingAmount] as stored and
    sets [status] to the status of the patch when the patch has one
    (otherwise leaves it), whatever [remainingAmount] is. *)
Theorem C2_completed_when_settled users db now user req resp db' id saved :
  handle users db now user req = (resp, db') →
  succeeded resp = true →
  db' !! id = Some saved →
  (∀ body, req = ReqPayment id body →
     remainingAmount saved ≤ 0 → status saved = completed)
  ∧ (∀ body, req = ReqCreate id body →
       remainingAmount saved = amount saved ∧ 1 ≤ amount saved
       ∧ status saved = active)
  ∧ (∀ body stored, req = ReqUpdate id body → db !! id = Some stored →
       remainingAmount saved = remainingAmount stored
       ∧ status saved = patched_status body (status stored)).
Proof.
  intros Hreq Hok Hid. split; [|split].
  - intros body -> Hle. simpl in Hreq.
    apply add_payment_inv in Hreq
      as [[Hf _]|(stored & a & dt & _ & _ & _ & _ & _ & _ & ->)]; [congruence|].
    rewrite lookup_insert_eq in Hid. injection Hid as <-.
    destruct (paid_derived now stored (Payment.mk a dt (PaymentBody.notes body)))
      as (_ & Hrem & Hs).
    rewrite Hs. rewrite Hrem in Hle. by rewrite decide_True.
  - intros body ->. simpl in Hreq.
    apply create_transaction_inv in Hreq
      as [[Hf _]|(b & a & i & sd & dd & _ & _ & Ha & _ & _ & _ & ->)]; [congruence|].
    rewrite lookup_insert_eq in Hid. injection Hid as <-. simpl.
    done.
  - intros body stored -> Hstored. simpl in Hreq.
    apply update_transaction_inv in Hreq
      as [[Hf _]|(stored' & Hid' & _ & Hval & _ & ->)]; [congruence|].
    rewrite lookup_insert_eq in Hid. injection Hid as <-.
    rewrite Hstored in Hid'. injection Hid' as <-.
    destruct (updated_kept now users body stored)
      as (_ & _ & _ & Hrem & _ & Hs & _).
    split; [done|]. rewrite Hs. by apply patched_status_spec.
Qed.

Lemma C2_witness :
  ∃ saved,
    Scenario.db2 !! 7%N = Some saved
    ∧ remainingAmount saved ≤ 0
    ∧ status saved = completed.
Proof.
  eexists. split; [vm_compute; reflexivity|].
  split; [vm_compute; discriminate|].
  refine (proj1 (C2_completed_when_settled Scenario.accounts Scenario.db1 1100
                   Scenario.bob (ReqPayment 7%N (Scenario.pay 1000 1100))
                   _ _ 7%N _ eq_refl eq_refl eq_refl) _ eq_refl _).
  vm_compute. discriminate.
Defined.

(** C2 does not extend to an update of the status: bob has paid
    alice's loan back in full, and alice sets its status to [active]; the
    stored record then has a remaining amount of 0 and the status
    [active]. *)
Lemma C2_counterexample :
  reachable Scenario.db2
  ∧ ∃ t,
      update_transaction Scenario.accounts Scenario.db2 1200 Scenario.alice
        7%N Scenario.reopen
      = (OkData t, <[7%N := t]> Scenario.db2)
      ∧ remainingAmount t = 0
      ∧ remainingAmount t ≤ 0
      ∧ status t = active
      ∧ status t ≠ completed.
Proof.
  split; [exact db2_reachable|].
  eexists. split; [vm_compute; reflexivity|]. simpl. repeat split; done.
Qed.

Lemma handle_refused users db now user req :
  succeeded (handle users db now user req).1 = false →
  (handle users db now user req).2 = db.
Proof.
  destruct (handle users db now user req) as [resp db'] eqn:Hreq. simpl.
  intros Hf. destruct req as [oid body| |id|id body|id|id body]; simpl in Hreq.
  - apply create_transaction_inv in Hreq
      as [[_ ->]|(b & a & i & sd & dd & _ & _ & _ & _ & _ & -> & _)]; done.
  - by injection Hreq as _ <-.
  - unfold get_transaction in Hreq. repeat case_match; by injection Hreq as _ <-.
  - apply update_transaction_inv in Hreq
      as [[_ ->]|(stored & _ & _ & _ & -> & _)]; done.
  - unfold delete_transaction in Hreq.
    repeat case_match; injection Hreq as <- <-; done.
  - apply add_payment_inv in Hreq
      as [[_ ->]|(stored & a & dt & _ & _ & _ & _ & _ & -> & _)]; done.
Qed.

(** C3, as it holds of the handlers.  Every request that is refused leaves the
    collection as it was.  A creation with a missing required field is
    refused as a bad request, and a creation with a principal below 1 (so
    every principal [<= 0]) is refused; a payment whose amount is missing
    or not numeric, or whose date is missing, is refused as a bad
    request.  The sign of a payment amount is not examined: on a
    reachable collection, a payment of any amount [a] with a valid date,
    made by the lender or the borrower, is appended and committed. *)
Theorem C3_refusals_change_nothing users db now user :
  reachable db →
  (∀ req, succeeded (handle users db now user req).1 = false →
     (handle users db now user req).2 = db)
  ∧ (∀ oid body, missing_field body →
       create_transaction users db now oid user body = (BadRequest, db))
  ∧ (∀ oid body a, CreateBody.amount body = Some a → a < 1 →
       succeeded (create_transaction users db now oid user body).1 = false
       ∧ (create_transaction users db now oid user body).2 = db)
  ∧ (∀ id body,
       PaymentBody.amount body = None ∨ PaymentBody.date body = date_absent →
       add_payment db now user id body = (BadRequest, db))
  ∧ (∀ id stored a dt n,
       db !! id = Some stored → authorised stored user = true →
       ∃ saved,
         add_payment db now user id (PaymentBody.mk (Some a) (date_valid dt) n)
         = (OkData saved, <[id := saved]> db)
         ∧ payments saved = payments stored ++ [Payment.mk a dt n]).
Proof.
  intros Hr. split; [|split; [|split; [|split]]].
  - intros req. apply handle_refused.
  - intros oid [b a i dd sd desc]. unfold missing_field, create_transaction.
    simpl. unfold not_empty_str.
    intros Hmiss.
    destruct (truthy_str b), a, i, dd, sd; simpl; try done;
      destruct Hmiss as [? | [? | [? | [? | ?]]]]; done.
  - intros oid body a Ha Hlt.
    destruct (create_transaction users db now oid user body) as [resp db'] eqn:E.
    apply create_transaction_inv in E
      as [[? ->]|(b & a' & i & sd & dd & Hbody & _ & Ha' & _)]; [done|].
    rewrite Hbody in Ha. simpl in Ha. injection Ha as ->. lia.
  - intros id [a dt n]. unfold add_payment. simpl.
    intros [->| ->]; simpl; [done|]. by rewrite andb_false_r.
  - intros id stored a dt n Hid Hauth.
    destruct (reachable_sound _ _ _ Hr Hid) as [Hval _].
    eexists. split; [by apply add_payment_commit|].
    by destruct (paid_entered now stored (Payment.mk a dt n))
      as (_ & _ & _ & _ & _ & _ & _ & _ & _ & _ & ?).
Qed.

Lemma C3_witness :
  reachable Scenario.db1
  ∧ (0 < 1
     ∧ succeeded (create_transaction Scenario.accounts Scenario.db1 1100 8%N
                    Scenario.alice
                    (CreateBody.mk (Some "bob"%string) (Some 0) (Some 5)
                       (date_valid 3000) (date_valid 1000) None)).1 = false
     ∧ (create_transaction Scenario.accounts Scenario.db1 1100 8%N
          Scenario.alice
          (CreateBody.mk (Some "bob"%string) (Some 0) (Some 5)
             (date_valid 3000) (date_valid 1000) None)).2 = Scenario.db1).
Proof.
  split; [exact db1_reachable|]. split; [lia|].
  apply (proj1 (proj2 (proj2
           (C3_refusals_change_nothing Scenario.accounts Scenario.db1 1100
              Scenario.alice db1_reachable))) 8%N
           (CreateBody.mk (Some "bob"%string) (Some 0) (Some 5)
              (date_valid 3000) (date_valid 1000) None) 0 eq_refl).
  lia.
Defined.

(** C3 does not extend to negative amounts: a payment of -50 on
    alice's loan is accepted and stored, and the remaining amount grows
    to 1050. *)
Lemma C3_counterexample :
  reachable Scenario.db1
  ∧ ∃ t,
      add_payment Scenario.db1 1100 Scenario.bob 7%N (Scenario.pay (-50) 1100)
      = (OkData t, <[7%N := t]> Scenario.db1)
      ∧ payments t = [Payment.mk (-50) 1100 None]
      ∧ totalPaid t = -50
      ∧ remainingAmount t = 1050
      ∧ <[7%N := t]> Scenario.db1 ≠ Scenario.db1.
Proof.
  split; [exact db1_reachable|].
  eexists. split; [vm_compute; reflexivity|].
  split; [reflexivity|]. split; [reflexivity|]. split; [reflexivity|].
  intros H. apply (f_equal (λ m, payments <$> m !! 7%N)) in H.
  vm_compute in H. discriminate H.
Qed.

(** C4, as it holds of the handlers.  With unique usernames (the
    [unique] index of the [User] schema): a committed creation stores the
    borrower name as given, with [borrowerId] the id of the account whose
    username is that name without the white space around it, and no
    [borrowerId] when no account bears the trimmed name; a committed
    update whose patch carries a borrower name stores that name and
    resolves it the same way, clearing [borrowerId] when no account
    bears the trimmed name. *)
Theorem C4_borrower_resolution users db now user :
  NoDup (username <$> users) →
  (∀ oid body b resp db',
     CreateBody.borrower body = Some b →
     create_transaction users db now oid user body = (resp, db') →
     succeeded resp = true →
     ∃ t, db' !! oid = Some t ∧ borrower t = b
       ∧ (∀ u, u ∈ users → username u = trim b → borrowerId t = Some (_id u))
       ∧ ((∀ u, u ∈ users → username u ≠ trim b) → borrowerId t = None))
  ∧ (∀ id body b resp db',
       truthy_str (UpdateBody.borrower body) = Some b →
       update_transaction users db now user id body = (resp, db') →
       succeeded resp = true →
       ∃ t, db' !! id = Some t ∧ borrower t = b
         ∧ (∀ u, u ∈ users → username u = trim b →
              borrowerId t = Some (_id u))
         ∧ ((∀ u, u ∈ users → username u ≠ trim b) → borrowerId t = None)).
Proof.
  intros Hnd.
  assert (∀ b t, borrowerId t = _id <$> findOne users b →
    (∀ u, u ∈ users → username u = trim b → borrowerId t = Some (_id u))
    ∧ ((∀ u, u ∈ users → username u ≠ trim b) → borrowerId t = None)) as Hres.
  { intros b t ->. split.
    - intros u Hu Hname. by rewrite (findOne_unique users b u).
    - intros Hno. destruct (findOne users b) as [u|] eqn:E; [|done].
      apply findOne_Some in E as [Hu Hname]. by destruct (Hno u Hu). }
  split.
  - intros oid body b resp db' Hb Hreq Hok.
    apply create_transaction_inv in Hreq
      as [[Hf _]|(b' & a & i & sd & dd & Hbody & _ & _ & _ & _ & _ & ->)];
      [congruence|].
    rewrite Hbody in Hb. simpl in Hb. injection Hb as ->.
    eexists. split; [apply lookup_insert_eq|]. split; [done|].
    by apply Hres.
  - intros id body b resp db' Hb Hreq Hok.
    apply update_transaction_inv in Hreq
      as [[Hf _]|(stored & _ & _ & _ & _ & ->)]; [congruence|].
    eexists. split; [apply lookup_insert_eq|].
    pose proof (timestamps_entered now (patched users body stored)
                  (fields (patched users body stored))) as He.
    unfold patched in He at 3. rewrite update_borrower_fields, Hb in He.
    unfold entered in He. simpl in He.
    injection He as _ Hbor Hbid _ _ _ _ _ _.
    split; [done|]. by apply Hres.
Qed.

Lemma C4_witness :
  NoDup (username <$> Scenario.accounts)
  ∧ ∃ t,
      (update_transaction Scenario.accounts Scenario.db1 1100 Scenario.alice
         7%N (Scenario.rename "carol")).2 !! 7%N = Some t
      ∧ borrower t = "carol"%string
      ∧ borrowerId t = Some (_id Scenario.carol).
Proof.
  assert (NoDup (username <$> Scenario.accounts)) as Hnd.
  { apply (bool_decide_unpack _). vm_compute. exact I. }
  split; [exact Hnd|].
  eassert (truthy_str (UpdateBody.borrower (Scenario.rename "carol")) = Some _)
    as Hb by (vm_compute; reflexivity).
  destruct (proj2 (C4_borrower_resolution Scenario.accounts Scenario.db1 1100
                     Scenario.alice Hnd)
              7%N (Scenario.rename "carol") _ _ _
              Hb (surjective_pairing _) eq_refl)
    as (t & Hid & Hbor & Hsome & _).
  exists t. split; [exact Hid|]. split; [exact Hbor|].
  apply Hsome; [|vm_compute; reflexivity].
  apply (bool_decide_unpack _). vm_compute. exact I.
Defined.

(** C4 does not hold of a name with white space around it: no account
    has the username [" bob "], and yet the loan that alice records for
    the borrower [" bob "] is stored under that name with the id of the
    account [bob]. *)
Lemma C4_counterexample :
  (∀ u, u ∈ Scenario.accounts → username u ≠ " bob "%string)
  ∧ ∃ t db',
      create_transaction Scenario.accounts ∅ 1000 7%N Scenario.alice
        (CreateBody.mk (Some " bob "%string) (Some 1000) (Some 5)
           (date_valid 3000) (date_valid 1000) None)
      = (Created 7%N t true, db')
      ∧ db' !! 7%N = Some t
      ∧ borrower t = " bob "%string
      ∧ borrowerId t = Some (_id Scenario.bob)
      ∧ borrowerId t ≠ None.
Proof.
  split.
  - intros u Hu. unfold Scenario.accounts in Hu.
    repeat (apply elem_of_cons in Hu as [->|Hu]; [discriminate|]).
    by apply elem_of_nil in Hu.
  - eexists _, _. split; [vm_compute; reflexivity|].
    split; [vm_compute; reflexivity|]. simpl. repeat split; done.
Qed.

(** C5.  The listing of a user holds no entry twice; its entries are
    exactly the stored records of which the user is the lender, tagged
    [lender], and those of which the user is the borrower by id or by
    name, tagged [borrower] (so a record of which the user is both
    appears once under each role); it is ordered by [createdAt], newest
    first; and it leaves the collection as it was. *)
Theorem C5_history db user :
  ∃ h, list_transactions db user = (OkList h, db)
    ∧ NoDup h
    ∧ (∀ e, e ∈ h ↔
         db !! entry_id e = Some (entry_doc e)
         ∧ (role e = role_lender ∧ lender (entry_doc e) = _id user
            ∨ role e = role_borrower
              ∧ (borrowerId (entry_doc e) = Some (_id user)
                 ∨ borrower (entry_doc e) = username user)))
    ∧ StronglySorted (λ e1 e2, createdAt (entry_doc e2) ≤ createdAt (entry_doc e1)) h.
Proof.
  exists (history db user). split; [reflexivity|]. split; [|split].
  - unfold history, list_transactions. simpl.
    apply NoDup_sort_desc. rewrite !NoDup_app. repeat split.
    + apply NoDup_fmap_2; [apply _|]. apply NoDup_sort_desc, NoDup_find.
    + intros e [Hr _]%elem_of_tagged
        [[Hr' _]%elem_of_tagged|[Hr' _]%elem_of_tagged]%elem_of_app;
        congruence.
    + apply NoDup_fmap_2; [apply _|]. apply NoDup_sort_desc, NoDup_find.
    + intros e [_ H2]%elem_of_tagged [_ H3]%elem_of_tagged.
      apply elem_of_find in H2 as [H2 _], H3 as [[_ H3] _]. simpl in *. done.
    + apply NoDup_fmap_2; [apply _|]. apply NoDup_sort_desc, NoDup_find.
  - apply elem_of_history.
  - apply (sort_desc_sorted (createdAt ∘ entry_doc)).
Qed.

(** C6, as it holds of the handlers.  A caller who is neither the
    lender nor the borrower of a stored record is answered
    [Unauthorized] by the read, the update and the deletion; by the
    payment too when its body passes the validation of the request (a
    numeric amount and a date), and otherwise the payment is answered as
    a bad request, the validation coming first.  None of the four
    changes the collection. *)
Theorem C6_strangers_are_refused users db now user id t ubody pbody :
  db !! id = Some t →
  isLender t user = false →
  isBorrower t user = false →
  get_transaction db user id = (Unauthorized, db)
  ∧ update_transaction users db now user id ubody = (Unauthorized, db)
  ∧ delete_transaction db user id = (Unauthorized, db)
  ∧ add_payment db now user id pbody
    = (if isNumeric (PaymentBody.amount pbody)
          && not_empty_date (PaymentBody.date pbody)
       then Unauthorized else BadRequest, db).
Proof.
  intros Hid Hl Hb.
  unfold get_transaction, update_transaction, delete_transaction, add_payment.
  rewrite Hid, Hl, Hb. unfold isLender in Hl. rewrite Hl. simpl.
  repeat split; try done.
  by destruct (isNumeric _ && not_empty_date _).
Qed.

Lemma C6_witness :
  get_transaction Scenario.db1 Scenario.carol 7%N = (Unauthorized, Scenario.db1)
  ∧ update_transaction Scenario.accounts Scenario.db1 1100 Scenario.carol 7%N
      Scenario.raise_principal = (Unauthorized, Scenario.db1)
  ∧ delete_transaction Scenario.db1 Scenario.carol 7%N
    = (Unauthorized, Scenario.db1)
  ∧ add_payment Scenario.db1 1100 Scenario.carol 7%N (Scenario.pay 100 1100)
    = (Unauthorized, Scenario.db1).
Proof.
  destruct (C6_strangers_are_refused Scenario.accounts Scenario.db1 1100
              Scenario.carol 7%N _ Scenario.raise_principal
              (Scenario.pay 100 1100)
              eq_refl eq_refl eq_refl)
    as (Hget & Hput & Hdel & Hpay).
  exact (conj Hget (conj Hput (conj Hdel Hpay))).
Defined.

(** C6 does not hold of a payment whose body fails the validation of
    the request: carol, who is neither the lender nor the borrower of
    alice's loan, sends a payment without an amount and is answered with
    a bad request, not with [Unauthorized]. *)
Lemma C6_counterexample :
  (∃ t, Scenario.db1 !! 7%N = Some t
        ∧ isLender t Scenario.carol = false
        ∧ isBorrower t Scenario.carol = false)
  ∧ add_payment Scenario.db1 1100 Scenario.carol 7%N
      (PaymentBody.mk None (date_valid 1100) None)
    = (BadRequest, Scenario.db1)
  ∧ BadRequest ≠ Unauthorized.
Proof.
  split; [|split].
  - eexists. split; [vm_compute; reflexivity|]. split; reflexivity.
  - reflexivity.
  - discriminate.
Qed.

(** C7.  When a committed payment leaves a positive [remainingAmount]:
    a record that was due before the time of the request and was not
    [completed] becomes [overdue]; a record that is not yet past due
    keeps its status; and in no case does the status become [active] or
    [defaulted] unless it was so. *)
Theorem C7_overdue_on_payment db now user id body stored saved db' :
  db !! id = Some stored →
  add_payment db now user id body = (OkData saved, db') →
  0 < remainingAmount saved →
  db' !! id = Some saved
  ∧ (dueDate stored < now → status stored ≠ completed → status saved = overdue)
  ∧ (¬ dueDate stored < now → status saved = status stored)
  ∧ (status saved = overdue ∨ status saved = status stored).
Proof.
  intros Hid Hreq Hpos.
  apply add_payment_inv in Hreq
    as [[Hf _]|(stored' & a & dt & Hid' & _ & _ & _ & _ & Hresp & ->)]; [done|].
  rewrite Hid in Hid'. injection Hid' as <-. injection Hresp as ->.
  destruct (paid_derived now stored (Payment.mk a dt (PaymentBody.notes body)))
    as (_ & Hrem & Hs).
  rewrite Hrem in Hpos. rewrite decide_False in Hs by lia.
  split; [apply lookup_insert_eq|]. rewrite Hs.
  case_decide as Hdue; repeat split; intros; auto; tauto.
Qed.

Lemma C7_witness :
  ∃ saved db',
    add_payment Scenario.db1 3500 Scenario.bob 7%N (Scenario.pay 100 3500)
    = (OkData saved, db')
    ∧ 0 < remainingAmount saved
    ∧ status saved = overdue.
Proof.
  eexists _, _. split; [vm_compute; reflexivity|].
  split; [reflexivity|].
  refine (proj1 (proj2 (C7_overdue_on_payment Scenario.db1 3500 Scenario.bob
                          7%N (Scenario.pay 100 3500) _ _ _
                          eq_refl eq_refl eq_refl)) _ _).
  - reflexivity.
  - vm_compute. discriminate.
Defined.



(** C9.  A payment request leaves every other record of the collection
    as it was, and of the record it names it leaves [lender],
    [borrower], [borrowerId], [amount], [interestRate], [startDate],
    [dueDate], [description] and [createdAt] as they were. *)
Theorem C9_payment_frame db now user id body resp db' :
  add_payment db now user id body = (resp, db') →
  (∀ j, j ≠ id → db' !! j = db !! j)
  ∧ (db !! id = None → db' !! id = None)
  ∧ (∀ stored, db !! id = Some stored →
       ∃ saved, db' !! id = Some saved
         ∧ lender saved = lender stored
         ∧ borrower saved = borrower stored
         ∧ borrowerId saved = borrowerId stored
         ∧ amount saved = amount stored
         ∧ interestRate saved = interestRate stored
         ∧ startDate saved = startDate stored
         ∧ dueDate saved = dueDate stored
         ∧ description saved = description stored
         ∧ createdAt saved = createdAt stored).
Proof.
  intros Hreq.
  apply add_payment_inv in Hreq
    as [[_ ->]|(stored & a & dt & Hid & _ & _ & _ & _ & _ & ->)].
  - repeat split; [done|]. intros stored Hid. exists stored. by repeat split.
  - split; [|split].
    + intros j Hj. by rewrite lookup_insert_ne.
    + by rewrite Hid.
    + intros stored' Hid'. rewrite Hid in Hid'. injection Hid' as <-.
      eexists. split; [apply lookup_insert_eq|].
      destruct (paid_entered now stored (Payment.mk a dt (PaymentBody.notes body)))
        as (? & ? & ? & ? & ? & ? & ? & ? & ? & _).
      by repeat split.
Qed.

Lemma C9_witness :
  ∃ saved,
    (add_payment Scenario.db1 1100 Scenario.bob 7%N (Scenario.pay 400 1100)).2
      !! 7%N = Some saved
    ∧ lender saved = 1%N ∧ borrower saved = "bob"%string
    ∧ amount saved = 1000 ∧ dueDate saved = 3000.
Proof.
  destruct (proj2 (proj2 (C9_payment_frame Scenario.db1 1100 Scenario.bob 7%N
                            (Scenario.pay 400 1100) _ _ eq_refl)) _ eq_refl)
    as (saved & Hid & Hl & Hb & _ & Ha & _ & _ & Hd & _).
  exists saved. exact (conj Hid (conj Hl (conj Hb (conj Ha Hd)))).
Defined.

(** C10.  When the caller is both the lender and the borrower of a
    stored record, the read answers with the record and the single role
    [lender], while the listing holds the record under both roles. *)
Theorem C10_lender_role_first db user id t :
  db !! id = Some t →
  isLender t user = true →
  isBorrower t user = true →
  get_transaction db user id = (OkRecord t role_lender, db)
  ∧ ∃ h, list_transactions db user = (OkList h, db)
      ∧ mkEntry id t role_lender ∈ h
      ∧ mkEntry id t role_borrower ∈ h.
Proof.
  intros Hid Hl Hb. split.
  - unfold get_transaction. by rewrite Hid, Hl.
  - exists (history db user). split; [reflexivity|].
    apply bool_decide_eq_true in Hl.
    unfold isBorrower in Hb.
    rewrite !elem_of_history. simpl. repeat split; auto.
    right. split; [done|].
    apply orb_prop in Hb as [Hb|Hb].
    + left. destruct (borrowerId t) as [b|]; [|done].
      apply bool_decide_eq_true in Hb. by subst.
    + right. by apply bool_decide_eq_true in Hb.
Qed.

Lemma C10_witness :
  ∃ t,
    Scenario.db_self !! 9%N = Some t
    ∧ get_transaction Scenario.db_self Scenario.alice 9%N
      = (OkRecord t role_lender, Scenario.db_self).
Proof.
  eexists. split; [vm_compute; reflexivity|].
  exact (proj1 (C10_lender_role_first Scenario.db_self Scenario.alice
                  9%N _ eq_refl eq_refl eq_refl)).
Defined.

(** * Further properties of the handlers *)

(** ** Updates *)

Lemma update_borrower_invalid users body d :
  invalidPaths (update_borrower users body d) = invalidPaths d.
Proof.
  unfold update_borrower.
  destruct (truthy_str (UpdateBody.borrower body)) as [b|]; simpl; [|done].
  by destruct (findOne users b).
Qed.

(** The fields and the refused paths of a document after the
    assignments of an update. *)
Lemma update_fields_spec body stored :
  let d := update_fields body (hydrate stored) in
  bool_decide (invalidPaths d = []) = patch_clean body
  ∧ (invalidPaths d = [] →
     fields d = apply_patch [] (UpdateBody.mk (UpdateBody.amount body)
                  (UpdateBody.interestRate body) (UpdateBody.dueDate body)
                  (UpdateBody.startDate body) (UpdateBody.status body)
                  (UpdateBody.description body) None) stored).
Proof.
  unfold update_fields, apply_patch, patched_status, patch_clean. simpl.
  destruct (truthy_num (UpdateBody.amount body)) as [[a|]|],
    (truthy_num (UpdateBody.interestRate body)) as [[i|]|],
    (UpdateBody.dueDate body), (UpdateBody.startDate body),
    (truthy_str (UpdateBody.status body)) as [s|],
    (truthy_str (UpdateBody.description body)); simpl;
    try destruct (parse_status s); simpl;
    (split; [reflexivity|]); first [done | by destruct stored].
Qed.

Lemma patched_clean users body stored :
  bool_decide (invalidPaths (patched users body stored) = []) = patch_clean body.
Proof.
  unfold patched. rewrite update_borrower_invalid.
  apply update_fields_spec.
Qed.

Lemma patched_fields_clean users body stored :
  patch_clean body = true →
  fields (patched users body stored) = apply_patch users body stored.
Proof.
  intros Hc. rewrite <-(patched_clean users body stored) in Hc.
  apply bool_decide_eq_true_1 in Hc.
  unfold patched in *. rewrite update_borrower_invalid in Hc.
  rewrite update_borrower_fields.
  rewrite (proj2 (update_fields_spec body stored) Hc).
  unfold apply_patch. simpl.
  by destruct (truthy_str (UpdateBody.borrower body)).
Qed.

Lemma patched_fields users body stored :
  validate (patched users body stored) = true →
  fields (patched users body stored) = apply_patch users body stored.
Proof.
  unfold validate. rewrite patched_clean. intros [Hc _]%andb_prop.
  by apply patched_fields_clean.
Qed.

Lemma apply_patch_validators users body stored :
  validators stored = true →
  validators (apply_patch users body stored) =
    match truthy_num (UpdateBody.amount body) with
    | Some (Some a) => bool_decide (1 ≤ a) | _ => true end
    && match truthy_num (UpdateBody.interestRate body) with
       | Some (Some i) => bool_decide (0 ≤ i) | _ => true end.
Proof.
  unfold validators, apply_patch. simpl. intros [Ha Hi]%andb_prop.
  destruct (truthy_num (UpdateBody.amount body)) as [[a|]|],
    (truthy_num (UpdateBody.interestRate body)) as [[i|]|]; simpl;
    by rewrite ?Ha, ?Hi, ?andb_true_r.
Qed.

Lemma patched_validate users body stored :
  validators stored = true →
  validate (patched users body stored) = patch_ok body.
Proof.
  intros Hst. unfold patch_ok, validate.
  rewrite <-(apply_patch_validators users body stored Hst), patched_clean.
  destruct (patch_clean body) eqn:Hc; simpl.
  - by rewrite patched_fields_clean, andb_true_r.
  - by rewrite andb_false_r.
Qed.

Lemma with_updatedAt_id t : with_updatedAt (updatedAt t) t = t.
Proof. by destruct t. Qed.

(** X1.  A committed update stores the record it found with exactly
    the fields of the patch replaced: [amount] and [interestRate] when
    the patch has a truthy value for them, by the number that the value
    is cast to; [dueDate] and [startDate] when it has them; [status],
    [description] and [borrower] when it has them non-empty (with
    [borrowerId] resolved again from the new name, trimmed); and nothing
    else but [updatedAt], which is the time of the request or the one
    stored. *)
Theorem X1_update_effect users db now user id body stored saved db' :
  db !! id = Some stored →
  update_transaction users db now user id body = (OkData saved, db') →
  db' = <[id := saved]> db
  ∧ saved = with_updatedAt (updatedAt saved) (apply_patch users body stored)
  ∧ (updatedAt saved = now ∨ updatedAt saved = updatedAt stored).
Proof.
  intros Hid Hreq.
  apply update_transaction_inv in Hreq
    as [[Hf _]|(stored' & Hid' & _ & Hval & Hresp & ->)]; [done|].
  rewrite Hid in Hid'. injection Hid' as <-. injection Hresp as ->.
  split; [done|].
  rewrite (patched_fields _ _ _ Hval).
  destruct (patched_untouched users body stored) as (Hnew & _ & _).
  unfold timestamps. rewrite Hnew.
  destruct (modifiedPaths (patched users body stored)).
  - split; [symmetry; apply with_updatedAt_id|]. by right.
  - split; [reflexivity|]. by left.
Qed.

Lemma X1_witness :
  ∃ stored saved db',
    Scenario.db1 !! 7%N = Some stored
    ∧ update_transaction Scenario.accounts Scenario.db1 1100 Scenario.alice 7%N
        Scenario.raise_principal = (OkData saved, db')
    ∧ saved = with_updatedAt (updatedAt saved)
                (apply_patch Scenario.accounts Scenario.raise_principal stored).
Proof.
  eexists _, _, _. split; [vm_compute; reflexivity|].
  split; [vm_compute; reflexivity|].
  exact (proj1 (proj2 (X1_update_effect Scenario.accounts Scenario.db1 1100
                         Scenario.alice 7%N Scenario.raise_principal _ _ _
                         eq_refl eq_refl))).
Defined.

(** X2.  On a reachable collection, an update by the lender of a stored
    record is committed exactly when the patch is acceptable: a truthy
    amount is cast to a number of at least 1, a truthy rate is cast to a
    number of at least 0, no date fails to parse and no status is
    outside the five of the schema.  Any other patch (an amount that is
    a string which is no number, for one) is answered with a server
    error and changes nothing. *)
Theorem X2_update_commits_iff users db now user id body stored :
  reachable db →
  db !! id = Some stored →
  lender stored = _id user →
  (patch_ok body = true →
     ∃ saved, update_transaction users db now user id body
              = (OkData saved, <[id := saved]> db))
  ∧ (patch_ok body = false →
     update_transaction users db now user id body = (ServerError, db)).
Proof.
  intros Hr Hid Hl.
  destruct (reachable_sound _ _ _ Hr Hid) as [Hst _].
  pose proof (patched_validate users body stored Hst) as Hval.
  split; intros Hok; rewrite Hok in Hval.
  - eexists. by apply update_transaction_commit.
  - unfold update_transaction. rewrite Hid.
    rewrite bool_decide_eq_true_2 by done. simpl.
    fold (patched users body stored). unfold save. by rewrite Hval.
Qed.

Lemma X2_witness :
  reachable Scenario.db1
  ∧ update_transaction Scenario.accounts Scenario.db1 1100 Scenario.alice 7%N
      (UpdateBody.mk (num_other None) num_absent date_absent date_absent
         None None None)
    = (ServerError, Scenario.db1).
Proof.
  split; [exact db1_reachable|].
  exact (proj2 (X2_update_commits_iff Scenario.accounts Scenario.db1 1100
                  Scenario.alice 7%N
                  (UpdateBody.mk (num_other None) num_absent date_absent
                     date_absent None None None)
                  _ db1_reachable eq_refl eq_refl) eq_refl).
Defined.

(** X3.  On a reachable collection, an update by the lender whose patch
    has no truthy field (it has no field, or only the number 0 and empty
    strings) is answered with the stored record and changes nothing,
    [updatedAt] included. *)
Theorem X3_empty_patch_changes_nothing users db now user id body stored :
  reachable db →
  db !! id = Some stored →
  lender stored = _id user →
  empty_patch body →
  update_transaction users db now user id body = (OkData stored, db).
Proof.
  intros Hr Hid Hl (Ha & Hi & Hd & Hs & Hst & Hde & Hb).
  destruct (reachable_sound _ _ _ Hr Hid) as [Hval _].
  assert (patched users body stored = hydrate stored) as Hp.
  { unfold patched, update_borrower, update_fields.
    by rewrite Ha, Hi, Hd, Hs, Hst, Hde, Hb. }
  unfold update_transaction. rewrite Hid.
  rewrite bool_decide_eq_true_2 by done. simpl.
  fold (patched users body stored). rewrite Hp.
  unfold save, validate. simpl. rewrite Hval. simpl.
  by rewrite insert_id.
Qed.

Lemma X3_witness :
  reachable Scenario.db1
  ∧ ∃ stored,
      Scenario.db1 !! 7%N = Some stored
      ∧ update_transaction Scenario.accounts Scenario.db1 1100 Scenario.alice
          7%N (UpdateBody.mk (num_number 0) num_absent date_absent date_absent
                 (Some ""%string) None None)
        = (OkData stored, Scenario.db1).
Proof.
  split; [exact db1_reachable|].
  eexists. split; [vm_compute; reflexivity|].
  apply (X3_empty_patch_changes_nothing Scenario.accounts Scenario.db1 1100
           Scenario.alice 7%N _ _ db1_reachable eq_refl eq_refl).
  repeat split.
Defined.

(** ** What a request can do to the collection *)

Lemma delete_transaction_inv db user id resp db' :
  delete_transaction db user id = (resp, db') →
  (succeeded resp = false ∧ db' = db)
  ∨ ∃ stored, db !! id = Some stored ∧ lender stored = _id user
      ∧ resp = OkRemoved ∧ db' = delete id db.
Proof.
  unfold delete_transaction.
  destruct (db !! id) as [stored|]; [|intros [= <- <-]; by left].
  case_bool_decide; simpl; intros [= <- <-]; [|by left].
  right. by exists stored.
Qed.

(** The five ways in which a request leaves the collection. *)
Lemma handle_cases users db now user req resp db' :
  handle users db now user req = (resp, db') →
  db' = db
  ∨ (∃ oid body b a i sd dd,
       req = ReqCreate oid body ∧ db !! oid = None
       ∧ db' = <[oid := created users now user b a i sd dd
                           (CreateBody.description body)]> db)
  ∨ (∃ id body stored,
       req = ReqUpdate id body ∧ db !! id = Some stored
       ∧ lender stored = _id user
       ∧ validate (patched users body stored) = true
       ∧ db' = <[id := timestamps now (patched users body stored)
                         (fields (patched users body stored))]> db)
  ∨ (∃ id stored,
       req = ReqDelete id ∧ db !! id = Some stored
       ∧ lender stored = _id user ∧ db' = delete id db)
  ∨ (∃ id body stored a dt,
       req = ReqPayment id body ∧ db !! id = Some stored
       ∧ authorised stored user = true
       ∧ db' = <[id := paid now stored
                         (Payment.mk a dt (PaymentBody.notes body))]> db).
Proof.
  intros Hreq.
  destruct req as [oid body| |id|id body|id|id body]; simpl in Hreq.
  - apply create_transaction_inv in Hreq
      as [[_ ->]|(b & a & i & sd & dd & _ & _ & _ & _ & Hnew & _ & ->)];
      [by left|].
    right; left. by exists oid, body, b, a, i, sd, dd.
  - left. by injection Hreq as _ <-.
  - left. unfold get_transaction in Hreq.
    repeat case_match; by injection Hreq as _ <-.
  - apply update_transaction_inv in Hreq
      as [[_ ->]|(stored & Hid & Hl & Hval & _ & ->)]; [by left|].
    right; right; left. by exists id, body, stored.
  - apply delete_transaction_inv in Hreq
      as [[_ ->]|(stored & Hid & Hl & _ & ->)]; [by left|].
    right; right; right; left. by exists id, stored.
  - apply add_payment_inv in Hreq
      as [[_ ->]|(stored & a & dt & Hid & _ & _ & Hauth & _ & _ & ->)];
      [by left|].
    right; right; right; right. by exists id, body, stored, a, dt.
Qed.

(** X4.  A request changes at most the record that it names: every
    other id holds what it held.  A record appears only by a creation
    under its id, and disappears only by a deletion of its id. *)
Theorem X4_one_record_per_request users db now user req resp db' :
  handle users db now user req = (resp, db') →
  (∀ j, target req ≠ Some j → db' !! j = db !! j)
  ∧ (∀ j, db !! j = None → is_Some (db' !! j) → ∃ body, req = ReqCreate j body)
  ∧ (∀ j, is_Some (db !! j) → db' !! j = None → req = ReqDelete j).
Proof.
  intros Hreq.
  apply handle_cases in Hreq
    as [->|[(oid & body & b & a & i & sd & dd & -> & Hnew & ->)
       |[(id & body & stored & -> & Hid & _ & _ & ->)
       |[(id & stored & -> & Hid & _ & ->)
       |(id & body & stored & a & dt & -> & Hid & _ & ->)]]]]; simpl.
  - split; [|split].
    + done.
    + intros j -> [? ?]. done.
    + intros j [? Hj] Hj'. congruence.
  - split; [|split].
    + intros j Hj. apply lookup_insert_ne. congruence.
    + intros j Hj Hj'. destruct (decide (oid = j)) as [->|]; [by eexists|].
      rewrite lookup_insert_ne, Hj in Hj' by done. by destruct Hj'.
    + intros j [? Hj]. destruct (decide (oid = j)) as [->|]; [congruence|].
      rewrite lookup_insert_ne by done. congruence.
  - split; [|split].
    + intros j Hj. apply lookup_insert_ne. congruence.
    + intros j Hj Hj'. destruct (decide (id = j)) as [->|]; [congruence|].
      rewrite lookup_insert_ne, Hj in Hj' by done. by destruct Hj'.
    + intros j [? Hj]. destruct (decide (id = j)) as [->|].
      * by rewrite lookup_insert_eq.
      * rewrite lookup_insert_ne by done. congruence.
  - split; [|split].
    + intros j Hj. apply lookup_delete_ne. congruence.
    + intros j Hj Hj'. destruct (decide (id = j)) as [->|]; [congruence|].
      rewrite lookup_delete_ne, Hj in Hj' by done. by destruct Hj'.
    + intros j [? Hj]. destruct (decide (id = j)) as [->|]; [done|].
      rewrite lookup_delete_ne by done. congruence.
  - split; [|split].
    + intros j Hj. apply lookup_insert_ne. congruence.
    + intros j Hj Hj'. destruct (decide (id = j)) as [->|]; [congruence|].
      rewrite lookup_insert_ne, Hj in Hj' by done. by destruct Hj'.
    + intros j [? Hj]. destruct (decide (id = j)) as [->|].
      * by rewrite lookup_insert_eq.
      * rewrite lookup_insert_ne by done. congruence.
Qed.

Lemma X4_witness :
  (handle Scenario.accounts Scenario.db_self 1100 Scenario.alice
     (ReqCreate 7%N Scenario.loan)).2 !! 9%N
  = Scenario.db_self !! 9%N.
Proof.
  refine (proj1 (X4_one_record_per_request Scenario.accounts Scenario.db_self
                   1100 Scenario.alice (ReqCreate 7%N Scenario.loan) _ _
                   eq_refl) 9%N _).
  simpl. discriminate.
Defined.

(** X5.  Whatever the request, a record that stays in the collection
    keeps its lender and its creation time, and its payments are the ones
    it had, followed by at most one more: no request reassigns a loan,
    and none removes or rewrites a payment. *)
Theorem X5_lender_and_payments_stay users db now user req resp db' id t t' :
  handle users db now user req = (resp, db') →
  db !! id = Some t →
  db' !! id = Some t' →
  lender t' = lender t
  ∧ createdAt t' = createdAt t
  ∧ (payments t' = payments t ∨ ∃ p, payments t' = payments t ++ [p]).
Proof.
  intros Hreq Hid Hid'.
  apply handle_cases in Hreq
    as [->|[(oid & body & b & a & i & sd & dd & -> & Hnew & ->)
       |[(j & body & stored & -> & Hj & _ & _ & ->)
       |[(j & stored & -> & Hj & _ & ->)
       |(j & body & stored & a & dt & -> & Hj & _ & ->)]]]].
  - rewrite Hid in Hid'. injection Hid' as <-. auto.
  - destruct (decide (oid = id)) as [->|]; [congruence|].
    rewrite lookup_insert_ne, Hid in Hid' by done. injection Hid' as <-. auto.
  - destruct (decide (j = id)) as [->|].
    + rewrite lookup_insert_eq in Hid'. injection Hid' as <-.
      rewrite Hid in Hj. injection Hj as <-.
      destruct (updated_kept now users body t) as (Hl & Hp & _ & _ & Hc & _).
      auto.
    + rewrite lookup_insert_ne, Hid in Hid' by done. injection Hid' as <-. auto.
  - destruct (decide (j = id)) as [->|].
    + by rewrite lookup_delete_eq in Hid'.
    + rewrite lookup_delete_ne, Hid in Hid' by done. injection Hid' as <-. auto.
  - destruct (decide (j = id)) as [->|].
    + rewrite lookup_insert_eq in Hid'. injection Hid' as <-.
      rewrite Hid in Hj. injection Hj as <-.
      destruct (paid_entered now t (Payment.mk a dt (PaymentBody.notes body)))
        as (Hl & _ & _ & _ & _ & _ & _ & _ & Hc & _ & Hp).
      repeat split; [done..|]. right. by eexists.
    + rewrite lookup_insert_ne, Hid in Hid' by done. injection Hid' as <-. auto.
Qed.

Lemma X5_witness :
  ∃ t t',
    Scenario.db1 !! 7%N = Some t
    ∧ (handle Scenario.accounts Scenario.db1 1100 Scenario.bob
         (ReqPayment 7%N (Scenario.pay 400 1100))).2 !! 7%N = Some t'
    ∧ lender t' = lender t
    ∧ createdAt t' = createdAt t.
Proof.
  eexists _, _. split; [vm_compute; reflexivity|].
  split; [vm_compute; reflexivity|].
  destruct (X5_lender_and_payments_stay Scenario.accounts Scenario.db1 1100
              Scenario.bob (ReqPayment 7%N (Scenario.pay 400 1100)) _ _ 7%N
              _ _ eq_refl eq_refl eq_refl) as (Hl & Hc & _).
  exact (conj Hl Hc).
Defined.

(** ** Payments *)


(** X6.  A record whose status is [completed] keeps that status through
    every request that leaves it in the collection, a payment of any
    amount included, except an update whose patch names another status
    of the schema. *)
Theorem X6_completed_is_kept users db now user req resp db' id t t' :
  handle users db now user req = (resp, db') →
  db !! id = Some t →
  db' !! id = Some t' →
  status t = completed →
  status t' = completed
  ∨ ∃ body s, req = ReqUpdate id body
      ∧ truthy_str (UpdateBody.status body) = Some s
      ∧ parse_status s = Some (status t').
Proof.
  intros Hreq Hid Hid' Hst.
  apply handle_cases in Hreq
    as [->|[(oid & body & b & a & i & sd & dd & -> & Hnew & ->)
       |[(j & body & stored & -> & Hj & _ & Hval & ->)
       |[(j & stored & -> & Hj & _ & ->)
       |(j & body & stored & a & dt & -> & Hj & _ & ->)]]]].
  - rewrite Hid in Hid'. injection Hid' as <-. auto.
  - destruct (decide (oid = id)) as [->|]; [congruence|].
    rewrite lookup_insert_ne, Hid in Hid' by done. injection Hid' as <-. auto.
  - destruct (decide (j = id)) as [->|].
    + rewrite lookup_insert_eq in Hid'. injection Hid' as <-.
      rewrite Hid in Hj. injection Hj as <-.
      destruct (updated_kept now users body t) as (_ & _ & _ & _ & _ & Hs & _).
      rewrite Hs, (patched_status_spec _ _ _ Hval).
      unfold patched_status, validate in *. rewrite patched_clean in Hval.
      apply andb_prop in Hval as [Hclean _]. unfold patch_clean in Hclean.
      destruct (truthy_str (UpdateBody.status body)) as [s|] eqn:Hts; [|auto].
      right. exists body, s. split; [done|]. split; [done|].
      apply andb_prop in Hclean as [_ Hs'%bool_decide_eq_true].
      by destruct Hs' as [v ->].
    + rewrite lookup_insert_ne, Hid in Hid' by done. injection Hid' as <-. auto.
  - destruct (decide (j = id)) as [->|].
    + by rewrite lookup_delete_eq in Hid'.
    + rewrite lookup_delete_ne, Hid in Hid' by done. injection Hid' as <-. auto.
  - left. destruct (decide (j = id)) as [->|].
    + rewrite lookup_insert_eq in Hid'. injection Hid' as <-.
      rewrite Hid in Hj. injection Hj as <-.
      destruct (paid_derived now t (Payment.mk a dt (PaymentBody.notes body)))
        as (_ & _ & Hs).
      rewrite Hs, Hst. repeat case_decide; first [done | tauto].
    + rewrite lookup_insert_ne, Hid in Hid' by done. by injection Hid' as <-.
Qed.

Lemma X6_witness :
  ∃ t t',
    Scenario.db2 !! 7%N = Some t
    ∧ (handle Scenario.accounts Scenario.db2 1200 Scenario.alice
         (ReqPayment 7%N (Scenario.pay (-300) 1200))).2 !! 7%N = Some t'
    ∧ status t = completed
    ∧ remainingAmount t' = 300
    ∧ status t' = completed.
Proof.
  eassert (Scenario.db2 !! 7%N = Some _) as Ht by (vm_compute; reflexivity).
  eassert ((handle Scenario.accounts Scenario.db2 1200 Scenario.alice
              (ReqPayment 7%N (Scenario.pay (-300) 1200))).2 !! 7%N = Some _)
    as Ht' by (vm_compute; reflexivity).
  eexists _, _. split; [exact Ht|]. split; [exact Ht'|].
  split; [reflexivity|]. split; [reflexivity|].
  destruct (X6_completed_is_kept Scenario.accounts Scenario.db2 1200
              Scenario.alice (ReqPayment 7%N (Scenario.pay (-300) 1200))
              _ _ 7%N _ _ (surjective_pairing _) Ht Ht' eq_refl)
    as [H|(body & s & Hreq & _)]; [exact H|discriminate Hreq].
Defined.







(** ** Reading what was written *)

Lemma get_transaction_ok db user id t r :
  get_transaction db user id = (OkRecord t r, db) ↔
    db !! id = Some t
    ∧ (isLender t user = true ∧ r = role_lender
       ∨ isLender t user = false ∧ isBorrower t user = true ∧ r = role_borrower).
Proof.
  unfold get_transaction. split.
  - destruct (db !! id) as [t'|]; [|done].
    destruct (isLender t' user) eqn:Hl, (isBorrower t' user) eqn:Hb; simpl;
      intros [= -> <-]; try done; split; auto.
    all: first [left; by rewrite Hl | right; by rewrite Hl, Hb].
  - intros [-> [[-> ->]|(-> & -> & ->)]]; done.
Qed.

Lemma isBorrower_spec t user :
  isBorrower t user = true ↔
    borrowerId t = Some (_id user) ∨ borrower t = username user.
Proof.
  unfold isBorrower. rewrite orb_true_iff, !bool_decide_eq_true.
  destruct (borrowerId t) as [b|]; split; intros [H|H]; auto.
  - apply bool_decide_eq_true in H. left. by subst.
  - left. injection H as ->. by apply bool_decide_eq_true.
  - done.
  - done.
Qed.

Lemma readable_listed db user id t r :
  get_transaction db user id = (OkRecord t r, db) →
  mkEntry id t r ∈ history db user.
Proof.
  intros (Hid & Hr)%get_transaction_ok. apply elem_of_history. simpl.
  split; [done|].
  destruct Hr as [[Hl ->]|(_ & Hb & ->)].
  - left. split; [done|]. by apply bool_decide_eq_true in Hl.
  - right. split; [done|]. by apply isBorrower_spec.
Qed.

Lemma listed_readable db user id t r :
  mkEntry id t r ∈ history db user →
  ∃ r', get_transaction db user id = (OkRecord t r', db).
Proof.
  intros (Hid & Hr)%elem_of_history. simpl in *.
  destruct (isLender t user) eqn:Hl.
  - exists role_lender. apply get_transaction_ok. auto.
  - exists role_borrower. apply get_transaction_ok. split; [done|].
    right. split; [done|]. split; [|done].
    destruct Hr as [[_ Hlen]|[_ Hb]].
    + apply bool_decide_eq_false in Hl. done.
    + by apply isBorrower_spec.
Qed.

(** X10.  The listing and the read agree: a stored record is in the
    listing of a user, under some role, exactly when that user can read
    it; and the role that the read reports is one under which the
    listing holds the record. *)
Theorem X10_listed_iff_readable db user h id t :
  list_transactions db user = (OkList h, db) →
  ((∃ r, mkEntry id t r ∈ h)
   ↔ ∃ r, get_transaction db user id = (OkRecord t r, db))
  ∧ (∀ r, get_transaction db user id = (OkRecord t r, db) → mkEntry id t r ∈ h).
Proof.
  intros Hh. rewrite list_transactions_history in Hh. injection Hh as <-.
  split; [split|].
  - intros [r Hr]. by eapply listed_readable.
  - intros [r Hr]. exists r. by apply readable_listed.
  - intros r. apply readable_listed.
Qed.

Lemma X10_witness :
  ∃ h t,
    list_transactions Scenario.db1 Scenario.bob = (OkList h, Scenario.db1)
    ∧ get_transaction Scenario.db1 Scenario.bob 7%N
      = (OkRecord t role_borrower, Scenario.db1)
    ∧ mkEntry 7%N t role_borrower ∈ h.
Proof.
  eassert (get_transaction Scenario.db1 Scenario.bob 7%N
           = (OkRecord _ role_borrower, Scenario.db1)) as Hget
    by (vm_compute; reflexivity).
  eexists _, _. split; [reflexivity|]. split; [exact Hget|].
  exact (proj2 (X10_listed_iff_readable Scenario.db1 Scenario.bob _ 7%N _
                  eq_refl) _ Hget).
Defined.

(** X11.  A committed creation can be read back: the creator reads the
    new record with the role [lender] and finds it in the listing under
    that role; and every account whose id is the [borrowerId] of the
    record, or whose username is its [borrower], finds it in the listing
    under the role [borrower] and can read it. *)
Theorem X11_created_is_visible users db now oid user body t flag db' :
  create_transaction users db now oid user body = (Created oid t flag, db') →
  get_transaction db' user oid = (OkRecord t role_lender, db')
  ∧ mkEntry oid t role_lender ∈ history db' user
  ∧ (∀ u, borrowerId t = Some (_id u) ∨ borrower t = username u →
       mkEntry oid t role_borrower ∈ history db' u
       ∧ ∃ r, get_transaction db' u oid = (OkRecord t r, db')).
Proof.
  intros Hreq.
  apply create_transaction_inv in Hreq
    as [[Hf _]|(b & a & i & sd & dd & _ & _ & _ & _ & _ & Hresp & ->)]; [done|].
  injection Hresp as -> _.
  set (t := created users now user b a i sd dd _) in *.
  assert (<[oid := t]> db !! oid = Some t) as Hid by apply lookup_insert_eq.
  assert (isLender t user = true) as Hl by (by apply bool_decide_eq_true).
  split; [|split].
  - apply get_transaction_ok. auto.
  - apply elem_of_history. simpl. auto.
  - intros u Hu. split.
    + apply elem_of_history. simpl. auto.
    + apply (listed_readable _ u oid t role_borrower).
      apply elem_of_history. simpl. auto.
Qed.

Lemma X11_witness :
  ∃ t flag db',
    create_transaction Scenario.accounts ∅ 1000 7%N Scenario.alice Scenario.loan
    = (Created 7%N t flag, db')
    ∧ get_transaction db' Scenario.alice 7%N = (OkRecord t role_lender, db')
    ∧ mkEntry 7%N t role_borrower ∈ history db' Scenario.bob.
Proof.
  eassert (create_transaction Scenario.accounts ∅ 1000 7%N Scenario.alice
             Scenario.loan = (Created 7%N _ _, _)) as Hreq
    by (vm_compute; reflexivity).
  destruct (X11_created_is_visible _ _ _ _ _ _ _ _ _ Hreq) as (Hget & _ & Hb).
  eexists _, _, _. split; [exact Hreq|]. split; [exact Hget|].
  apply (Hb Scenario.bob). right. reflexivity.
Defined.

(** X12.  A creation is undone by its deletion: when the creator
    deletes the record just created, the collection is again the one
    before the creation. *)
Theorem X12_create_then_delete users db now oid user body t flag db' :
  create_transaction users db now oid user body = (Created oid t flag, db') →
  delete_transaction db' user oid = (OkRemoved, db).
Proof.
  intros Hreq.
  apply create_transaction_inv in Hreq
    as [[Hf _]|(b & a & i & sd & dd & _ & _ & _ & _ & Hnew & _ & ->)]; [done|].
  unfold delete_transaction. rewrite lookup_insert_eq. simpl.
  rewrite bool_decide_eq_true_2 by done. simpl.
  by rewrite delete_insert_id.
Qed.

Lemma X12_witness :
  delete_transaction Scenario.db1 Scenario.alice 7%N = (OkRemoved, ∅).
Proof.
  eassert (create_transaction Scenario.accounts ∅ 1000 7%N Scenario.alice
             Scenario.loan = (Created 7%N _ _, _)) as Hreq
    by (vm_compute; reflexivity).
  exact (X12_create_then_delete _ _ _ _ _ _ _ _ _ Hreq).
Defined.

(** X13.  After a committed deletion the record is gone for every
    user: its read, its update and its deletion answer that it is not
    found, so does a payment on it whose body passes the validation of
    the request, and no listing holds it; the listings hold the other
    records as before. *)
Theorem X13_deleted_is_gone users db now user id db' :
  delete_transaction db user id = (OkRemoved, db') →
  ∀ u,
    get_transaction db' u id = (NotFound, db')
    ∧ (∀ body, update_transaction users db' now u id body = (NotFound, db'))
    ∧ delete_transaction db' u id = (NotFound, db')
    ∧ (∀ a dt n,
         add_payment db' now u id (PaymentBody.mk (Some a) (date_valid dt) n)
         = (NotFound, db'))
    ∧ (∀ e, e ∈ history db' u ↔ e ∈ history db u ∧ entry_id e ≠ id).
Proof.
  intros Hreq u.
  apply delete_transaction_inv in Hreq as [[Hf _]|(stored & Hid & _ & _ & ->)];
    [done|].
  unfold get_transaction, update_transaction, delete_transaction, add_payment.
  simpl. rewrite lookup_delete_eq.
  split; [done|]. split; [done|]. split; [done|]. split; [done|].
  intros e. rewrite !elem_of_history. split.
  - intros [[Hne Hin]%lookup_delete_Some Hr]. auto.
  - intros [[Hin Hr] Hne]. split; [|done]. by rewrite lookup_delete_ne.
Qed.

Lemma X13_witness :
  get_transaction (delete 7%N Scenario.db1) Scenario.bob 7%N
  = (NotFound, delete 7%N Scenario.db1).
Proof.
  exact (proj1 (X13_deleted_is_gone Scenario.accounts Scenario.db1 1100
                  Scenario.alice 7%N (delete 7%N Scenario.db1) eq_refl
                  Scenario.bob)).
Defined.

(** X14.  Every record of a reachable collection has an amount of at
    least 1 and a rate of at least 0: no sequence of requests, whatever
    their bodies, stores a record that the validators of the schema
    refuse. *)
Theorem X14_stored_records_are_valid db id t :
  reachable db →
  db !! id = Some t →
  1 ≤ amount t ∧ 0 ≤ interestRate t.
Proof.
  intros Hr Hid. destruct (reachable_sound _ _ _ Hr Hid) as [Hval _].
  unfold validators in Hval.
  apply andb_prop in Hval as [Ha%bool_decide_eq_true Hi%bool_decide_eq_true].
  done.
Qed.

Lemma X14_witness :
  ∃ t, Scenario.db2 !! 7%N = Some t ∧ 1 ≤ amount t ∧ 0 ≤ interestRate t.
Proof.
  eassert (Scenario.db2 !! 7%N = Some _) as Ht by (vm_compute; reflexivity).
  eexists. split; [exact Ht|].
  exact (X14_stored_records_are_valid _ _ _ db2_reachable Ht).
Defined.

(** ** The borrower lookups *)

Lemma findOne_accounts accounts name :
  findOne (Account.user <$> accounts) name
  = Account.user <$>
      head (filter (λ a, username (Account.user a) = trim name) accounts).
Proof.
  unfold findOne. induction accounts as [|a l IH]; [done|].
  rewrite fmap_cons, !filter_cons. by case_decide.
Qed.

(** X15.  The lookup by username and the creation agree: when a
    creation with the borrower name [b] is committed, the lookup of [b]
    in the same accounts finds an account exactly when the answer of the
    creation says that the borrower exists; the id that the lookup
    reports is the [borrowerId] that the creation stored, and the
    username that it reports is [b] without the white space around
    it. *)
Theorem X15_lookup_agrees_with_creation accounts db now oid user body b t flag db' :
  CreateBody.borrower body = Some b →
  create_transaction (Account.user <$> accounts) db now oid user body
  = (Created oid t flag, db') →
  match check_borrower accounts b with
  | Exists_ d =>
      flag = true ∧ borrowerId t = Some (Details.id d)
      ∧ Details.username d = trim b
  | NotExists => flag = false ∧ borrowerId t = None
  end.
Proof.
  intros Hb Hreq.
  apply create_transaction_inv in Hreq
    as [[Hf _]|(b' & a & i & sd & dd & Hbody & _ & _ & _ & _ & Hresp & _)];
    [done|].
  rewrite Hbody in Hb. simpl in Hb. injection Hb as ->.
  injection Hresp as -> ->. unfold check_borrower, created. simpl.
  rewrite findOne_accounts.
  destruct (head (filter _ accounts)) as [acc|] eqn:Hacc; simpl.
  - repeat split.
    apply head_Some_elem_of, list_elem_of_filter in Hacc as [Hname _]. done.
  - done.
Qed.

Lemma X15_witness :
  let accounts :=
    [Account.mk Scenario.alice "Alice A" None "111" "Rampur" None;
     Account.mk Scenario.bob "Bob B" (Some "Ben B"%string) "222" "Rampur" None] in
  ∃ t flag db' d,
    create_transaction (Account.user <$> accounts) ∅ 1000 7%N Scenario.alice
      Scenario.loan = (Created 7%N t flag, db')
    ∧ check_borrower accounts "bob" = Exists_ d
    ∧ borrowerId t = Some (Details.id d).
Proof.
  intros accounts.
  eassert (create_transaction (Account.user <$> accounts) ∅ 1000 7%N
             Scenario.alice Scenario.loan = (Created 7%N _ _, _)) as Hreq
    by (vm_compute; reflexivity).
  eassert (check_borrower accounts "bob" = Exists_ _) as Hd
    by (vm_compute; reflexivity).
  pose proof (X15_lookup_agrees_with_creation accounts _ _ _ _ Scenario.loan
                "bob" _ _ _ eq_refl Hreq) as H.
  rewrite Hd in H.
  eexists _, _, _, _. split; [exact Hreq|]. split; [exact Hd|].
  exact (proj1 (proj2 H)).
Defined.

(** X16.  With unique usernames, the lookup of a name answers with the
    details of the account whose username is that name without the white
    space around it, an absent [fatherName] or [address] given as the
    empty string; and a name whose trimmed form no account bears is
    answered as not existing. *)
Theorem X16_lookup_by_username accounts :
  NoDup (username ∘ Account.user <$> accounts) →
  (∀ a name, a ∈ accounts → username (Account.user a) = trim name →
     check_borrower accounts name = Exists_ (details_of a))
  ∧ (∀ name, (∀ a, a ∈ accounts → username (Account.user a) ≠ trim name) →
       check_borrower accounts name = NotExists).
Proof.
  intros Hnd. split.
  - intros a name Ha Hname. unfold check_borrower.
    destruct (head (filter _ accounts)) as [a'|] eqn:Hhd.
    + apply head_Some_elem_of, list_elem_of_filter in Hhd as [Hname' Ha'].
      f_equal. f_equal. symmetry.
      apply (NoDup_fmap_eq (username ∘ Account.user) accounts); [done..|].
      simpl. congruence.
    + apply head_None in Hhd.
      by destruct (filter_nil_not_elem_of _ _ a Hhd).
  - intros name Hno. unfold check_borrower.
    destruct (head (filter _ accounts)) as [a'|] eqn:Hhd; [|done].
    apply head_Some_elem_of, list_elem_of_filter in Hhd as [Hname Ha'].
    by destruct (Hno a' Ha').
Qed.

Lemma X16_witness :
  let bob := Account.mk Scenario.bob "Bob B" None "222" "Rampur" None in
  let accounts :=
    [Account.mk Scenario.alice "Alice A" None "111" "Rampur" None; bob] in
  check_borrower accounts " bob "
  = Exists_ (Details.mk 2 "bob" "Bob B" "" "222" "Rampur" "").
Proof.
  intros bob accounts.
  refine (proj1 (X16_lookup_by_username accounts _) bob " bob "%string _ _).
  - apply (bool_decide_unpack _). vm_compute. exact I.
  - apply elem_of_cons. right. apply elem_of_cons. left. reflexivity.
  - vm_compute. reflexivity.
Defined.

(** X17.  The lookup by phone number answers with the details of an
    account of the collection that has that number, and answers that
    none exists exactly when no account has the number. *)
Theorem X17_lookup_by_phone accounts phone :
  (∀ d, check_phone accounts phone = Exists_ d →
     ∃ a, a ∈ accounts ∧ Account.phoneNumber a = phone ∧ d = details_of a)
  ∧ (check_phone accounts phone = NotExists
     ↔ ∀ a, a ∈ accounts → Account.phoneNumber a ≠ phone).
Proof.
  unfold check_phone.
  destruct (head (filter _ accounts)) as [a|] eqn:Hhd.
  - apply head_Some_elem_of, list_elem_of_filter in Hhd as [Hp Ha].
    split.
    + intros d [= <-]. by exists a.
    + split; [done|]. intros Hno. by destruct (Hno a Ha).
  - apply head_None in Hhd. split; [done|]. split; [|done].
    intros _ a Ha Hp. by destruct (filter_nil_not_elem_of _ _ a Hhd).
Qed.

Lemma X17_witness :
  let accounts :=
    [Account.mk Scenario.alice "Alice A" None "111" "Rampur" None;
     Account.mk Scenario.bob "Bob B" None "222" "Rampur" None] in
  check_phone accounts "333" = NotExists.
Proof.
  intros accounts.
  apply (proj2 (X17_lookup_by_phone accounts "333")).
  intros a [->|[->|[]%elem_of_nil]%elem_of_cons]%elem_of_cons; discriminate.
Defined.

(** ** The strength of a password *)

Section PasswordFacts.
Import Password.

Lemma test_true cls (p : list N) :
  test cls p = true ↔ ∃ c, c ∈ p ∧ cls c = true.
Proof.
  unfold test. rewrite existsb_exists.
  split; intros (c & Hc & Hcls); exists c; split; try done;
    by apply list_elem_of_In.
Qed.

Lemma test_mono cls (p q : list N) :
  (∀ c, c ∈ p → c ∈ q) → test cls p = true → test cls q = true.
Proof.
  intros Hsub (c & Hc & Hcls)%test_true. apply test_true. eauto.
Qed.

Lemma test_false cls (p : list N) :
  (∀ c, c ∈ p → cls c = false) → test cls p = false.
Proof.
  intros Hno. destruct (test cls p) eqn:E; [|done].
  apply test_true in E as (c & Hc & Hcls). rewrite (Hno c Hc) in Hcls. done.
Qed.

(** The number of checks that hold, as a sum. *)
Lemma strength_sum v :
  strength v =
    (Nat.b2n (minLength v) + Nat.b2n (hasUpperCase v)
     + Nat.b2n (hasLowerCase v) + Nat.b2n (hasNumber v)
     + Nat.b2n (hasSpecialChar v))%nat.
Proof. by destruct v as [[] [] [] [] []]. Qed.

Lemma strengthLevel_mono n m :
  (n ≤ m)%nat → (rank (strengthLevel n) ≤ rank (strengthLevel m))%nat.
Proof.
  intros Hnm. unfold strengthLevel.
  destruct (Nat.leb_spec 5 n), (Nat.leb_spec 5 m),
    (Nat.leb_spec 3 n), (Nat.leb_spec 3 m); simpl; lia.
Qed.

Lemma b2n_mono (b b' : bool) :
  (b = true → b' = true) → (Nat.b2n b ≤ Nat.b2n b')%nat.
Proof. destruct b, b'; simpl; intros H; first [lia | by specialize (H eq_refl)]. Qed.

(** The four character classes are pairwise disjoint. *)
Lemma special_range c :
  special c = true →
  (33 ≤ c ≤ 47 ∨ 58 ≤ c ≤ 64 ∨ c = 94 ∨ 123 ≤ c ≤ 125)%N.
Proof.
  unfold special, special_chars. intros Hc%bool_decide_eq_true.
  repeat (apply elem_of_cons in Hc as [->|Hc]; [lia|]).
  by apply elem_of_nil in Hc.
Qed.

Lemma classes_disjoint c :
  (upper c = true → lower c = false ∧ digit c = false ∧ special c = false)
  ∧ (lower c = true → upper c = false ∧ digit c = false ∧ special c = false)
  ∧ (digit c = true → upper c = false ∧ lower c = false ∧ special c = false)
  ∧ (special c = true → upper c = false ∧ lower c = false ∧ digit c = false).
Proof.
  assert (∀ lo hi, ((lo <=? c) && (c <=? hi) = true ↔ lo ≤ c ≤ hi)%N) as Hrange.
  { intros. rewrite andb_true_iff, !N.leb_le. done. }
  assert (∀ lo hi, ((lo <=? c) && (c <=? hi) = false ↔ ¬ (lo ≤ c ≤ hi))%N)
    as Hout.
  { intros. rewrite <-Hrange. by destruct ((lo <=? c) && (c <=? hi))%N. }
  assert (∀ P : Prop, (special c = true → P) → ¬ P → special c = false)
    as Hsp.
  { intros P HP HnP. destruct (special c); [|done]. exfalso. by apply HnP, HP. }
  unfold upper, lower, digit.
  split; [|split; [|split]]; intros H; (split; [|split]).
  all: first
    [ apply Hout; apply Hrange in H; lia
    | apply Hout; apply special_range in H; lia
    | apply (Hsp _ (special_range c)); apply Hrange in H; lia ].
Qed.
End PasswordFacts.

(** The special characters, spelled: the double quote, of code 34,
    stands between the question mark and the colon. *)
Example special_chars_spelled :
  Password.special_chars
  = (Ascii.N_of_ascii <$> String.list_ascii_of_string "!@#$%^&*(),.?")
    ++ [34%N]
    ++ (Ascii.N_of_ascii <$> String.list_ascii_of_string ":{}|<>").
Proof. reflexivity. Qed.

(** X18.  A password is reported strong exactly when it has at least 8
    code units and holds an upper-case letter, a lower-case letter, a
    digit and one of the special characters; the flag [isStrong] and the
    level [strong] go together. *)
Theorem X18_strong_iff_all_checks (p : list N) v level is_strong :
  Password.validate_password (Some p) = Password.Report v level is_strong →
  (is_strong = true ↔ level = Password.strong)
  ∧ (is_strong = true ↔
       (8 ≤ length p)%nat
       ∧ (∃ c, c ∈ p ∧ (65 ≤ c ≤ 90)%N)
       ∧ (∃ c, c ∈ p ∧ (97 ≤ c ≤ 122)%N)
       ∧ (∃ c, c ∈ p ∧ (48 ≤ c ≤ 57)%N)
       ∧ (∃ c, c ∈ p ∧ Password.special c = true)).
Proof.
  unfold Password.validate_password. intros [= <- <- <-].
  split; [by destruct (Password.strengthLevel _)|].
  set (v := Password.validations p).
  assert (∀ lo hi, Password.test (λ c, (lo <=? c) && (c <=? hi))%N p = true
          ↔ ∃ c, c ∈ p ∧ (lo ≤ c ≤ hi)%N) as Hrange.
  { intros lo hi. rewrite test_true.
    split; intros (c & Hc & H); exists c; (split; [done|]).
    - apply andb_true_iff in H as [?%N.leb_le ?%N.leb_le]. done.
    - apply andb_true_iff. by rewrite !N.leb_le. }
  assert (Password.minLength v = true ↔ (8 ≤ length p)%nat) as H1
    by apply Nat.leb_le.
  assert (Password.hasUpperCase v = true ↔ ∃ c, c ∈ p ∧ (65 ≤ c ≤ 90)%N) as H2
    by apply Hrange.
  assert (Password.hasLowerCase v = true ↔ ∃ c, c ∈ p ∧ (97 ≤ c ≤ 122)%N) as H3
    by apply Hrange.
  assert (Password.hasNumber v = true ↔ ∃ c, c ∈ p ∧ (48 ≤ c ≤ 57)%N) as H4
    by apply Hrange.
  assert (Password.hasSpecialChar v = true
          ↔ ∃ c, c ∈ p ∧ Password.special c = true) as H5
    by apply test_true.
  rewrite <-H1, <-H2, <-H3, <-H4, <-H5.
  clearbody v. clear.
  destruct v as [[] [] [] [] []]; cbv; intuition discriminate.
Qed.

Lemma X18_witness :
  ∃ v level,
    Password.validate_password
      (Some [80; 97; 115; 115; 119; 48; 114; 100; 33]%N)
    = Password.Report v level true
    ∧ level = Password.strong.
Proof.
  eassert (Password.validate_password
             (Some [80; 97; 115; 115; 119; 48; 114; 100; 33]%N)
           = Password.Report _ _ _) as H by (vm_compute; reflexivity).
  eexists _, _. split; [exact H|].
  exact (proj1 (proj1 (X18_strong_iff_all_checks _ _ _ _ H)) eq_refl).
Defined.

(** X19.  A password whose code units all belong to one class (only
    upper-case letters, only lower-case letters, only digits, or only
    special characters) is weak, however long it is. *)
Theorem X19_one_class_is_weak (p : list N) cls :
  cls ∈ [Password.upper; Password.lower; Password.digit; Password.special] →
  (∀ c, c ∈ p → cls c = true) →
  ∃ v, Password.validate_password (Some p)
       = Password.Report v Password.weak false.
Proof.
  intros Hcls Hall. unfold Password.validate_password.
  eexists.
  assert (Password.strength (Password.validations p) ≤ 2)%nat as Hle.
  { rewrite strength_sum. unfold Password.validations.
    cbn [Password.minLength Password.hasUpperCase Password.hasLowerCase
         Password.hasNumber Password.hasSpecialChar].
    repeat (apply elem_of_cons in Hcls as [->|Hcls]);
      [| | | |by apply elem_of_nil in Hcls].
    - rewrite (test_false Password.lower), (test_false Password.digit),
        (test_false Password.special);
        [destruct (8 <=? length p)%nat, (Password.test Password.upper p);
         simpl; lia|..];
        intros c Hc; destruct (classes_disjoint c) as (Hu & Hl & Hd & Hs);
        specialize (Hall c Hc);
        first [ by destruct (Hu Hall) as (? & ? & ?)
              | by destruct (Hl Hall) as (? & ? & ?)
              | by destruct (Hd Hall) as (? & ? & ?)
              | by destruct (Hs Hall) as (? & ? & ?) ].
    - rewrite (test_false Password.upper), (test_false Password.digit),
        (test_false Password.special);
        [destruct (8 <=? length p)%nat, (Password.test Password.lower p);
         simpl; lia|..];
        intros c Hc; destruct (classes_disjoint c) as (Hu & Hl & Hd & Hs);
        specialize (Hall c Hc);
        first [ by destruct (Hu Hall) as (? & ? & ?)
              | by destruct (Hl Hall) as (? & ? & ?)
              | by destruct (Hd Hall) as (? & ? & ?)
              | by destruct (Hs Hall) as (? & ? & ?) ].
    - rewrite (test_false Password.upper), (test_false Password.lower),
        (test_false Password.special);
        [destruct (8 <=? length p)%nat, (Password.test Password.digit p);
         simpl; lia|..];
        intros c Hc; destruct (classes_disjoint c) as (Hu & Hl & Hd & Hs);
        specialize (Hall c Hc);
        first [ by destruct (Hu Hall) as (? & ? & ?)
              | by destruct (Hl Hall) as (? & ? & ?)
              | by destruct (Hd Hall) as (? & ? & ?)
              | by destruct (Hs Hall) as (? & ? & ?) ].
    - rewrite (test_false Password.upper), (test_false Password.lower),
        (test_false Password.digit);
        [destruct (8 <=? length p)%nat, (Password.test Password.special p);
         simpl; lia|..];
        intros c Hc; destruct (classes_disjoint c) as (Hu & Hl & Hd & Hs);
        specialize (Hall c Hc);
        first [ by destruct (Hu Hall) as (? & ? & ?)
              | by destruct (Hl Hall) as (? & ? & ?)
              | by destruct (Hd Hall) as (? & ? & ?)
              | by destruct (Hs Hall) as (? & ? & ?) ]. }
  unfold Password.strengthLevel.
  destruct (Nat.leb_spec 5 (Password.strength (Password.validations p)));
    [lia|].
  destruct (Nat.leb_spec 3 (Password.strength (Password.validations p)));
    [lia|].
  reflexivity.
Qed.

Lemma X19_witness :
  ∃ v, Password.validate_password
         (Some [49; 50; 51; 52; 53; 54; 55; 56; 57; 48; 49; 50]%N)
       = Password.Report v Password.weak false.
Proof.
  apply (X19_one_class_is_weak _ Password.digit).
  - apply elem_of_cons. right. apply elem_of_cons. right.
    apply elem_of_cons. left. reflexivity.
  - intros c Hc.
    repeat (apply elem_of_cons in Hc as [->|Hc]; [reflexivity|]).
    by apply elem_of_nil in Hc.
Defined.

(** X20.  Adding code units to a password never lowers its level: when
    every code unit of [p] occurs in [q] and [q] is at least as long,
    every check that [p] passes is passed by [q], and the level of [q]
    is at least the level of [p]. *)
Theorem X20_level_is_monotone (p q : list N) vp lp sp vq lq sq :
  (∀ c, c ∈ p → c ∈ q) →
  (length p ≤ length q)%nat →
  Password.validate_password (Some p) = Password.Report vp lp sp →
  Password.validate_password (Some q) = Password.Report vq lq sq →
  (Password.rank lp ≤ Password.rank lq)%nat
  ∧ (Password.minLength vp = true → Password.minLength vq = true)
  ∧ (Password.hasUpperCase vp = true → Password.hasUpperCase vq = true)
  ∧ (Password.hasLowerCase vp = true → Password.hasLowerCase vq = true)
  ∧ (Password.hasNumber vp = true → Password.hasNumber vq = true)
  ∧ (Password.hasSpecialChar vp = true → Password.hasSpecialChar vq = true).
Proof.
  intros Hsub Hlen [= <- <- <-] [= <- <- <-].
  set (vp := Password.validations p). set (vq := Password.validations q).
  assert (Password.minLength vp = true → Password.minLength vq = true) as Hmin.
  { subst vp vq. unfold Password.validations. cbn [Password.minLength].
    rewrite !Nat.leb_le. lia. }
  assert (Password.hasUpperCase vp = true → Password.hasUpperCase vq = true)
    as Hup by apply (test_mono Password.upper p q Hsub).
  assert (Password.hasLowerCase vp = true → Password.hasLowerCase vq = true)
    as Hlo by apply (test_mono Password.lower p q Hsub).
  assert (Password.hasNumber vp = true → Password.hasNumber vq = true)
    as Hdi by apply (test_mono Password.digit p q Hsub).
  assert (Password.hasSpecialChar vp = true → Password.hasSpecialChar vq = true)
    as Hsp by apply (test_mono Password.special p q Hsub).
  split; [|done].
  apply strengthLevel_mono. rewrite !strength_sum.
  pose proof (b2n_mono _ _ Hmin). pose proof (b2n_mono _ _ Hup).
  pose proof (b2n_mono _ _ Hlo). pose proof (b2n_mono _ _ Hdi).
  pose proof (b2n_mono _ _ Hsp). lia.
Qed.

Lemma X20_witness :
  ∃ vp lp sp vq lq sq,
    Password.validate_password (Some [97; 98; 99]%N) = Password.Report vp lp sp
    ∧ Password.validate_password (Some [97; 98; 99; 65; 49; 33; 100; 101]%N)
      = Password.Report vq lq sq
    ∧ (Password.rank lp ≤ Password.rank lq)%nat.
Proof.
  eassert (Password.validate_password (Some [97; 98; 99]%N)
           = Password.Report _ _ _) as Hp by (vm_compute; reflexivity).
  eassert (Password.validate_password
             (Some [97; 98; 99; 65; 49; 33; 100; 101]%N)
           = Password.Report _ _ _) as Hq by (vm_compute; reflexivity).
  eexists _, _, _, _, _, _. split; [exact Hp|]. split; [exact Hq|].
  refine (proj1 (X20_level_is_monotone _ _ _ _ _ _ _ _ _ _ Hp Hq)).
  - intros c Hc. rewrite !elem_of_cons in *. tauto.
  - simpl. lia.
Defined.
